(** * SEBI circular indexer: reference resolution and bounded traversal

    A shallow embedding of the resolver, the traversal engine and the graph
    builder of the repository:

    - [src/analyze_circular_references.py] (class [KnowledgeGraphAnalyzer]),
    - [src/circular_knowledge_graph.py] (class [CircularKnowledgeGraph] and
      the self-reference filter of [PDFCircularExtractor]),
    - [src/circular_reference_extractor.py] ([CircularDatabase.search] and
      the self-reference filter of [main]),
    - their later variants under [src/scripts/].

    Python strings are modelled as [string] (ASCII text: [upper] changes the
    letters a-z only), Python [dict]s whose iteration order is observable as
    insertion-ordered association lists ([PyDict]), Python [set]s of strings
    as [gset string], and the [defaultdict(set)] of levels as
    [gmap Z (gset string)]. *)

From Stdlib Require Import ZArith Ascii String.
From stdpp Require Import base option list gmap sets strings pretty.

Local Open Scope Z_scope.

(** ** Python string primitives *)

Module PyStr.

Definition code (c : ascii) : nat := nat_of_ascii c.

Definition between (lo hi : nat) (c : ascii) : bool :=
    (Nat.leb lo (code c)) && (Nat.leb (code c) hi).

Definition is_upper (c : ascii) : bool := between 65 90 c.
Definition is_lower (c : ascii) : bool := between 97 122 c.
Definition is_digit (c : ascii) : bool := between 48 57 c.

  (** [str.isspace] on ASCII text: TAB, LF, VT, FF, CR, FS, GS, RS, US and
      the space. *)
Definition is_space (c : ascii) : bool :=
    between 9 13 c || between 28 32 c.

Definition upper_char (c : ascii) : ascii :=
    if is_lower c then ascii_of_nat (code c - 32) else c.

Fixpoint smap (f : ascii → ascii) (s : string) : string :=
    match s with
    | EmptyString => EmptyString
    | String c s' => String (f c) (smap f s')
    end.

Fixpoint sfilter (p : ascii → bool) (s : string) : string :=
    match s with
    | EmptyString => EmptyString
    | String c s' => if p c then String c (sfilter p s') else sfilter p s'
    end.

  (** [s.upper()] *)
Definition upper (s : string) : string := smap upper_char s.

  (** [s.replace(old, '')] for a one-character [old]. *)
Definition remove_char (old : ascii) (s : string) : string :=
    sfilter (fun c => negb (Ascii.eqb c old)) s.

Fixpoint lstrip (s : string) : string :=
    match s with
    | EmptyString => EmptyString
    | String c s' => if is_space c then lstrip s' else s
    end.

Fixpoint rstrip (s : string) : string :=
    match s with
    | EmptyString => EmptyString
    | String c s' =>
        match rstrip s' with
        | EmptyString => if is_space c then EmptyString else String c EmptyString
        | r => String c r
        end
    end.

  (** [s.strip()] *)
Definition strip (s : string) : string := rstrip (lstrip s).

  (** [s.split(sep)[0]] for a one-character [sep]: the text before the first
      occurrence of [sep], the whole of [s] when there is none. *)
Fixpoint split_head (sep : ascii) (s : string) : string :=
    match s with
    | EmptyString => EmptyString
    | String c s' =>
        if Ascii.eqb c sep then EmptyString else String c (split_head sep s')
    end.

  (** [sep in s] for a one-character [sep]. *)
Fixpoint has_char (sep : ascii) (s : string) : bool :=
    match s with
    | EmptyString => false
    | String c s' => Ascii.eqb c sep || has_char sep s'
    end.

Fixpoint starts_with (p s : string) : bool :=
    match p, s with
    | EmptyString, _ => true
    | String _ _, EmptyString => false
    | String a p', String b s' => Ascii.eqb a b && starts_with p' s'
    end.

  (** [a in b] on strings: [a] occurs in [b] as a contiguous substring. *)
Fixpoint contains (a b : string) : bool :=
    starts_with a b ||
    match b with
    | EmptyString => false
    | String _ b' => contains a b'
    end.

  (** Truth value of a string: [bool(s)]. *)
Definition truthy (s : string) : bool :=
    match s with EmptyString => false | _ => true end.

End PyStr.

(** ** Identifier normalisation *)

(** The top-level scripts ([src/*.py]). *)
Module Root.

(** The comparison key of [_fuzzy_match_reference] (lines 208 and 212 of
    [src/analyze_circular_references.py]) and of [CircularDatabase.search]:
    [s.replace(' ', '').upper()]. *)
Definition normalize (s : string) : string :=
  PyStr.upper (PyStr.remove_char " "%char s).

(** [CircularDatabase.search] first strips the reference:
    [reference.strip().replace(' ', '').upper()]. *)
Definition normalize_reference (s : string) : string :=
  normalize (PyStr.strip s).

(** The self-reference filter that ends [extract_circular_references]
    (lines 242-252 of [src/circular_knowledge_graph.py], lines 100-110 of
    [src/analyze_circular_references.py]). *)
Definition current_circ_short (circular_number : string) : string :=
  if PyStr.truthy circular_number
  then PyStr.strip (PyStr.split_head "-"%char
                      (PyStr.split_head "("%char circular_number))
  else EmptyString.

Definition is_self_reference (circular_number ref : string) : bool :=
  let short := current_circ_short circular_number in
  PyStr.truthy short && (PyStr.contains short ref || PyStr.contains ref short).

Definition filter_self_references
    (circular_number : string) (references : list string) : list string :=
  filter (λ ref, is_self_reference circular_number ref = false) references.

(** The same filter as [main] of [src/circular_reference_extractor.py]
    writes it (lines 234-244): no test for an empty identifier, and the
    split and strip at ['-'] only when there is one. *)
Definition main_current_circ_short (current_circular : string) : string :=
  let short :=
    if PyStr.has_char "("%char current_circular
    then PyStr.split_head "("%char current_circular
    else current_circular in
  if PyStr.has_char "-"%char short
  then PyStr.strip (PyStr.split_head "-"%char short)
  else short.

Definition main_is_self_reference (current_circular ref : string) : bool :=
  let short := main_current_circ_short current_circular in
  PyStr.contains short ref || PyStr.contains ref short.

Definition main_filter_self_references
    (current_circular : string) (all_references : list string) : list string :=
  filter (λ ref, main_is_self_reference current_circular ref = false)
         all_references.

End Root.

(** The later scripts ([src/scripts/*.py]). *)
Module Scripts.

Definition keep_AZ09 (c : ascii) : bool :=
  PyStr.is_upper c || PyStr.is_digit c.

(** The local functions [normalize] of [_fuzzy_match_reference] and
    [normalize_circular_no] of the self-reference filters:
    [re.sub(r'[^A-Z0-9]', '', circ_no.upper())], and the empty string for a
    false argument. *)
Definition normalize (circ_no : string) : string :=
  if negb (PyStr.truthy circ_no) then EmptyString
  else PyStr.sfilter keep_AZ09 (PyStr.upper circ_no).

Definition normalize_circular_no : string → string := normalize.

(** The self-reference filter that ends [extract_circular_references]
    (lines 183-208 of [src/scripts/analyze_circular_references.py], lines
    452-478 of [src/scripts/circular_knowledge_graph.py]) and the one of
    [main] in [src/scripts/circular_reference_extractor.py] (lines
    296-324). *)
Definition is_self_reference (circular_number ref : string) : bool :=
  let current_circ_normalized := normalize_circular_no circular_number in
  let ref_normalized := normalize_circular_no ref in
  PyStr.truthy current_circ_normalized
  && String.eqb current_circ_normalized ref_normalized.

Definition filter_self_references
    (circular_number : string) (references : list string) : list string :=
  filter (λ ref, is_self_reference circular_number ref = false) references.

End Scripts.

(** The normaliser as the specification words it: drop every character that
    is not an ASCII letter or digit, then upper-case what is left. *)
Definition is_ascii_alnum (c : ascii) : bool :=
  PyStr.is_upper c || PyStr.is_lower c || PyStr.is_digit c.

Definition normalize_spec (raw : string) : string :=
  PyStr.upper (PyStr.sfilter is_ascii_alnum raw).

(** ** Python dictionaries

    A [dict] keeps its keys in insertion order, and that order is observable
    here (last write wins in [circular_to_node], the order of fuzzy matches,
    the order in which the seeds of the traversal are visited): it is an
    association list with one binding per key. *)

Module PyDict.
Section dict.
Context {V : Type}.

    (** [d.get(k)] *)
Fixpoint get (d : list (string * V)) (k : string) : option V :=
      match d with
      | [] => None
      | (k', v) :: d' => if String.eqb k' k then Some v else get d' k
      end.

    (** [k in d] *)
Definition mem (d : list (string * V)) (k : string) : bool :=
      match get d k with Some _ => true | None => false end.

    (** [d[k] = v]: an existing key keeps its position. *)
Fixpoint set (d : list (string * V)) (k : string) (v : V)
      : list (string * V) :=
      match d with
      | [] => [(k, v)]
      | (k', v') :: d' =>
          if String.eqb k' k then (k', v) :: d' else (k', v') :: set d' k v
      end.

    (** [list(d.keys())] *)
Definition keys (d : list (string * V)) : list string := d.*1.

    (** How many bindings [d] holds for [k]. *)
Definition count (d : list (string * V)) (k : string) : nat :=
      length (filter (λ kv, kv.1 = k) d).
End dict.
End PyDict.

(** ** Results of running Python code *)

Inductive exn : Type :=
| KeyError (key : string).

(** [Ok] is a normal return, [Raised] an exception that escapes, and
    [Fuel] a [while] loop that was cut off by the model's iteration bound. *)
Inductive result (A : Type) : Type :=
| Ok (a : A)
| Raised (e : exn)
| Fuel.
Arguments Ok {A} a.
Arguments Raised {A} e.
Arguments Fuel {A}.

#[global] Instance result_ret : MRet result := λ A a, Ok a.
#[global] Instance result_bind : MBind result := λ A B f m,
  match m with
  | Ok a => f a
  | Raised e => Raised e
  | Fuel => Fuel
  end.

(** [d[k]] *)
Definition subscript {V} (d : list (string * V)) (k : string) : result V :=
  match PyDict.get d k with
  | Some v => Ok v
  | None => Raised (KeyError k)
  end.

(** ** The graph snapshot and the analyzer

    A node and an edge of [circular_knowledge_graph.json]. The analyzer
    reads ['circular_no'] and ['references'] with [dict.get] and a default,
    so both may be missing. *)

Record node : Type := mkNode {
  n_id : string;
  n_filename : string;
  n_circular_no : option string;
  n_references : option (list string);
  n_reference_count : Z
}.

Record edge : Type := mkEdge {
  e_source : string;
  e_source_circular_no : string;
  e_target_reference : string;
  e_type : string
}.

Record graph_data : Type := mkData {
  data_nodes : list node;
  data_edges : list edge
}.

(** [node.get('circular_no', '')] and [node.get('references', [])] *)
Definition get_circular_no (n : node) : string := default ""%string (n_circular_no n).
Definition get_references (n : node) : list string := default [] (n_references n).

(** The fields of a [KnowledgeGraphAnalyzer]. *)
Record analyzer : Type := mkAnalyzer {
  nodes : list (string * node);
  edges : list edge;
  reference_map : list (string * list string);
  circular_to_node : list (string * string)
}.

(** [load_graph], lines 129-143, after the file was read. *)
Definition load_nodes (ns : list node) : list (string * node) :=
  foldl (λ d n, PyDict.set d (n_id n) n) [] ns.

Definition load_reference_map (es : list edge) : list (string * list string) :=
  foldl (λ m e,
           let target := e_target_reference e in
           let source := e_source e in
           PyDict.set m target (default [] (PyDict.get m target) ++ [source]))
        [] es.

Definition load_circular_to_node (nds : list (string * node))
  : list (string * string) :=
  foldl (λ m kv,
           let circ_no := get_circular_no kv.2 in
           if PyStr.truthy circ_no then PyDict.set m circ_no kv.1 else m)
        [] nds.

Definition load_graph (data : graph_data) : analyzer :=
  let nds := load_nodes (data_nodes data) in
  {| nodes := nds;
     edges := data_edges data;
     reference_map := load_reference_map (data_edges data);
     circular_to_node := load_circular_to_node nds |}.

(** ** The resolver: [find_direct_references] *)

(** The dictionary stored for a candidate; ['references'] is set on every
    branch, the other keys on some. *)
Record details : Type := mkDetails {
  d_type : string;
  d_node_id : option string;
  d_node : option node;
  d_references : list string;
  d_message : option string;
  d_referenced_by : option (list string);
  d_matches : option (list string)
}.

Definition in_graph (node_id : string) (n : node) : details :=
  {| d_type := "in_graph";
     d_node_id := Some node_id;
     d_node := Some n;
     d_references := get_references n;
     d_message := None;
     d_referenced_by := None;
     d_matches := None |}.

Definition referenced_external (sources : list string) : details :=
  {| d_type := "referenced_external";
     d_node_id := None;
     d_node := None;
     d_references := [];
     d_message :=
       Some ("Referenced by " +:+ pretty (length sources)
             +:+ " circular(s) in graph");
     d_referenced_by := Some sources;
     d_matches := None |}.

Definition fuzzy_match (matches : list string) : details :=
  {| d_type := "fuzzy_match";
     d_node_id := None;
     d_node := None;
     d_references := [];
     d_message := None;
     d_referenced_by := None;
     d_matches := Some matches |}.

Definition external : details :=
  {| d_type := "external";
     d_node_id := None;
     d_node := None;
     d_references := [];
     d_message := Some "Not in knowledge graph"%string;
     d_referenced_by := None;
     d_matches := None |}.

Section Resolver.
  (** The two generations of the analyzer differ only in the key that
      [_fuzzy_match_reference] compares: [Root.normalize] or
      [Scripts.normalize]. *)
Variable norm : string → string.

  (** [_fuzzy_match_reference], lines 206-216. *)
Definition _fuzzy_match_reference (self : analyzer) (ref : string)
    : list string :=
    let ref_normalized := norm ref in
    foldl (λ matches kv,
             let circ_no := norm (get_circular_no kv.2) in
             if PyStr.contains ref_normalized circ_no
                || PyStr.contains circ_no ref_normalized
             then matches ++ [kv.1] else matches)
          [] (nodes self).

  (** One turn of the loop of [find_direct_references], lines 154-194. *)
Definition resolve_one (self : analyzer) (ref : string) : result details :=
    match PyDict.get (nodes self) ref with
    | Some n => Ok (in_graph ref n)
    | None =>
        match PyDict.get (circular_to_node self) ref with
        | Some node_id =>
            n ← subscript (nodes self) node_id;
            Ok (in_graph node_id n)
        | None =>
            match PyDict.get (reference_map self) ref with
            | Some sources => Ok (referenced_external sources)
            | None =>
                let matches := _fuzzy_match_reference self ref in
                match matches with
                | [] => Ok external
                | _ => Ok (fuzzy_match matches)
                end
            end
        end
    end.

  (** [find_direct_references], lines 150-196. The argument is a Python
      set; [circular_references] lists it in the order the loop meets it. *)
Fixpoint find_direct_references_from
      (self : analyzer) (direct_refs : list (string * details))
      (circular_references : list string)
    : result (list (string * details)) :=
    match circular_references with
    | [] => Ok direct_refs
    | ref :: rest =>
        d ← resolve_one self ref;
        find_direct_references_from self (PyDict.set direct_refs ref d) rest
    end.

Definition find_direct_references
      (self : analyzer) (circular_references : list string)
    : result (list (string * details)) :=
    find_direct_references_from self [] circular_references.
End Resolver.

(** The outcome of a resolution entry, in the specification's five
    categories, read off the stored dictionary: an ['in_graph'] entry is an
    exact hit when it names the candidate itself as the node and an alias
    hit otherwise. *)
Inductive outcome : Type :=
| ExactNode | AliasNode | ExternallyReferenced | FuzzyMatch | Unresolved.

Definition outcome_of (candidate : string) (d : details) : option outcome :=
  if String.eqb (d_type d) "in_graph" then
    match d_node_id d with
    | Some node_id =>
        Some (if String.eqb node_id candidate then ExactNode else AliasNode)
    | None => None
    end
  else if String.eqb (d_type d) "referenced_external" then Some ExternallyReferenced
  else if String.eqb (d_type d) "fuzzy_match" then Some FuzzyMatch
  else if String.eqb (d_type d) "external" then Some Unresolved
  else None.

(** The resolver of the specification is the self-reference filter followed
    by [find_direct_references], as [main] chains them (lines 303 and 315):
    [selfFilter] is the filter of the generation at hand. *)
Definition resolve
    (norm : string → string)
    (selfFilter : string → list string → list string)
    (candidates : list string) (graph : graph_data) (selfIdentifier : string)
  : result (list (string * details)) :=
  find_direct_references norm (load_graph graph)
    (selfFilter selfIdentifier candidates).

(** ** [CircularDatabase.search] (lines 50-64 of
    [src/circular_reference_extractor.py]) *)

Record circular : Type := mkCircular {
  c_title : string;
  c_circular_no : string
}.

Definition search (circulars : list circular) (reference : string)
  : list circular :=
  let ref_normalized := Root.normalize_reference reference in
  foldl (λ matches c,
           let circ_no_normalized := Root.normalize (c_circular_no c) in
           if PyStr.contains ref_normalized circ_no_normalized
              || PyStr.contains circ_no_normalized ref_normalized
           then matches ++ [c] else matches)
        [] circulars.

(** ** The traversal engine: [find_indirect_references] *)

Record bfs_state : Type := mkState {
  indirect_by_level : gmap Z (gset string);
  visited : gset string;
  queue : list (string * Z)
}.

(** [indirect_by_level[level].add(ref)] on a [defaultdict(set)]: the key
    comes to exist with the first addition. *)
Definition level_add (m : gmap Z (gset string)) (level : Z) (ref : string)
  : gmap Z (gset string) :=
  <[level := {[ref]} ∪ default ∅ (m !! level)]> m.

(** The body shared by the two inner loops (lines 230-233 and 253-256): a
    reference that was not visited yet is recorded at [level], marked
    visited and queued. *)
Definition discover (level : Z) (st : bfs_state) (ref : string) : bfs_state :=
  if decide (ref ∈ visited st) then st
  else {| indirect_by_level := level_add (indirect_by_level st) level ref;
          visited := {[ref]} ∪ visited st;
          queue := queue st ++ [(ref, level)] |}.

Definition discover_all (level : Z) (st : bfs_state) (refs : list string)
  : bfs_state :=
  foldl (discover level) st refs.

(** One turn of the seeding loop (lines 225-233). *)
Definition seed_one (st : bfs_state) (item : string * details) : bfs_state :=
  let st := {| indirect_by_level := indirect_by_level st;
               visited := {[item.1]} ∪ visited st;
               queue := queue st |} in
  match d_references item.2 with
  | [] => st
  | refs => discover_all 2 st refs
  end.

Definition initial_state : bfs_state :=
  {| indirect_by_level := ∅; visited := ∅; queue := [] |}.

Definition seed (direct_refs : list (string * details)) : bfs_state :=
  foldl seed_one initial_state direct_refs.

(** Lines 244-248: the node a queued reference stands for, [None] when it
    is neither a node id nor a registered circular number. *)
Definition find_node_id (self : analyzer) (current_ref : string)
  : option string :=
  if PyDict.mem (nodes self) current_ref then Some current_ref
  else PyDict.get (circular_to_node self) current_ref.

(** One turn of the [while] loop after [popleft] (lines 239-256). *)
Definition expand (self : analyzer) (max_depth : Z)
    (current_ref : string) (level : Z) (st : bfs_state) : result bfs_state :=
  if Z.leb max_depth level then Ok st
  else
    match find_node_id self current_ref with
    | Some node_id =>
        if PyStr.truthy node_id then
          n ← subscript (nodes self) node_id;
          Ok (discover_all (level + 1) st (get_references n))
        else Ok st
    | None => Ok st
    end.

(** The [while queue:] loop, cut off after [fuel] turns. *)
Fixpoint bfs (fuel : nat) (self : analyzer) (max_depth : Z) (st : bfs_state)
  : result bfs_state :=
  match queue st with
  | [] => Ok st
  | (current_ref, level) :: rest =>
      match fuel with
      | O => Fuel
      | S fuel' =>
          st' ← expand self max_depth current_ref level
                  {| indirect_by_level := indirect_by_level st;
                     visited := visited st;
                     queue := rest |};
          bfs fuel' self max_depth st'
      end
  end.

(** Every reference a node of the graph makes, with repetitions. *)
Definition all_references (self : analyzer) : list string :=
  flat_map (λ kv, get_references kv.2) (nodes self).

(** The loop cannot take more turns than there are queued seeds and
    references in the graph (see [bfs_enough_fuel]). *)
Definition fuel_bound (self : analyzer) (st : bfs_state) : nat :=
  (length (queue st) + length (all_references self))%nat.

(** [find_indirect_references], lines 218-258. *)
Definition find_indirect_references
    (self : analyzer) (direct_refs : list (string * details)) (max_depth : Z)
  : result (gmap Z (gset string)) :=
  let st := seed direct_refs in
  st' ← bfs (fuel_bound self st) self max_depth st;
  Ok (indirect_by_level st').

(** ** The graph builder: [CircularKnowledgeGraph] *)

Record node_data : Type := mkNodeData {
  nd_filename : string;
  nd_circular_no : string;
  nd_references : list string;
  nd_reference_count : Z
}.

Record extraction_stats : Type := mkStats {
  total_pdfs : Z;
  successful_extractions : Z;
  failed_extractions : Z;
  total_references : Z
}.

Record CircularKnowledgeGraph : Type := mkGraph {
  kg_nodes : list (string * node_data);
  kg_edges : list edge;
  kg_extraction_stats : extraction_stats
}.

(** [__init__], lines 12-20. *)
Definition new_graph : CircularKnowledgeGraph :=
  {| kg_nodes := [];
     kg_edges := [];
     kg_extraction_stats := mkStats 0 0 0 0 |}.

(** [add_circular], lines 22-38 of [src/circular_knowledge_graph.py];
    [references] lists the Python set in its iteration order. *)
Definition add_circular (self : CircularKnowledgeGraph)
    (filename circular_no : string) (references : list string)
  : CircularKnowledgeGraph :=
  let node_id := filename in
  {| kg_nodes :=
       PyDict.set (kg_nodes self) node_id
         {| nd_filename := filename;
            nd_circular_no := circular_no;
            nd_references := references;
            nd_reference_count := Z.of_nat (length references) |};
     kg_edges :=
       kg_edges self ++
       map (λ ref, {| e_source := node_id;
                      e_source_circular_no := circular_no;
                      e_target_reference := ref;
                      e_type := "references" |}) references;
     kg_extraction_stats := kg_extraction_stats self |}.

(** A run of the builder: one [add_circular] per document, in order. *)
Definition add_circulars (self : CircularKnowledgeGraph)
    (docs : list (string * string * list string)) : CircularKnowledgeGraph :=
  foldl (λ g doc, add_circular g doc.1.1 doc.1.2 doc.2) self docs.

(** The ['nodes'] and ['edges'] that [export_to_json] writes (lines 68-78)
    and [load_graph] reads back. *)
Definition export_to_json (self : CircularKnowledgeGraph) : graph_data :=
  {| data_nodes :=
       map (λ kv, {| n_id := kv.1;
                     n_filename := nd_filename kv.2;
                     n_circular_no := Some (nd_circular_no kv.2);
                     n_references := Some (nd_references kv.2);
                     n_reference_count := nd_reference_count kv.2 |})
           (kg_nodes self);
     data_edges := kg_edges self |}.

(** The edges stored for a node, as the targets they point to. *)
Definition edge_targets (self : CircularKnowledgeGraph) (node_id : string)
  : list string :=
  map e_target_reference
      (filter (λ e, e_source e = node_id) (kg_edges self)).

(** The invariant of the data model: every stored node has exactly one edge
    per entry of its outgoing references, that is, the targets of its edges
    are its references up to order. *)
Definition edges_match_nodes (self : CircularKnowledgeGraph) : Prop :=
  ∀ node_id nd, PyDict.get (kg_nodes self) node_id = Some nd →
                edge_targets self node_id ≡ₚ nd_references nd.

(** A check of the invariant on one stored node: as many edges to each
    target as the node has entries for it, and as many edges as entries. *)
Definition edges_match_node_b (self : CircularKnowledgeGraph)
    (item : string * node_data) : bool :=
  let targets := edge_targets self item.1 in
  let refs := nd_references item.2 in
  Nat.eqb (length targets) (length refs)
  && forallb (λ r, Nat.eqb (length (filter (λ t, t = r) targets))
                           (length (filter (λ t, t = r) refs)))
             (targets ++ refs).

Definition edges_match_nodes_b (self : CircularKnowledgeGraph) : bool :=
  forallb (edges_match_node_b self) (kg_nodes self).

(** ** Scenarios

    The concrete graphs and inputs on which the properties below are
    evaluated. *)

Module Scenario.

(** Two documents that cite each other: [X.pdf] (circular [X]) cites [Y],
    and [Y.pdf] (circular [Y]) cites [X]. *)
Definition cycle : graph_data :=
  export_to_json
    (add_circulars new_graph
       [("X.pdf", "X", ["Y"]); ("Y.pdf", "Y", ["X"])])%string.

(** What [find_direct_references] stores for [X]'s one citation, [Y]. *)
Definition cycle_direct : list (string * details) :=
  [("Y", in_graph "Y.pdf"
           (mkNode "Y.pdf" "Y.pdf" (Some "Y") (Some ["X"]) 1))]%string.

(** One node whose circular number is written with spaces. *)
Definition spaced : graph_data :=
  {| data_nodes :=
       [mkNode "a.pdf" "a.pdf" (Some "SEBI HO ABC 2024 5") (Some []) 0];
     data_edges := [] |}%string.

(** [S] cites [AB], and [AB] cites the same identifier spelled [A B]. *)
Definition respelled : graph_data :=
  export_to_json
    (add_circulars new_graph
       [("s.pdf", "S", ["AB"]); ("ab.pdf", "AB", ["A B"])])%string.

(** One node whose circular number is written with dashes. *)
Definition dashed : graph_data :=
  {| data_nodes :=
       [mkNode "a.pdf" "a.pdf" (Some "SEBI-HO-ABC-2024-5") (Some []) 0];
     data_edges := [] |}%string.

(** The same document handed to the builder twice. *)
Definition readded : CircularKnowledgeGraph :=
  add_circulars new_graph
    [("a.pdf", "C/1", ["R/1"]); ("a.pdf", "C/1", ["R/1"])]%string.

(** A document reprocessed with fewer references than before. *)
Definition shrunk : CircularKnowledgeGraph :=
  add_circulars new_graph
    [("a.pdf", "C/1", ["R/1"]); ("a.pdf", "C/1", [])]%string.

End Scenario.

(** ** Predicates used in the statements *)

(** The indexes of a loaded analyzer agree with its nodes: every node id
    that [circular_to_node] yields is a key of [nodes], and the node bears
    the circular number it is filed under. *)
Definition wf_analyzer (self : analyzer) : Prop :=
  ∀ c node_id, PyDict.get (circular_to_node self) c = Some node_id →
    c ≠ ""%string ∧
    ∃ n, PyDict.get (nodes self) node_id = Some n ∧ get_circular_no n = c.

(** [x in levels[k]], for a key [k] that exists. *)
Definition at_level (levels : gmap Z (gset string)) (k : Z) (x : string)
  : Prop :=
  ∃ s, levels !! k = Some s ∧ x ∈ s.

(** The references the graph can still hand to the queue. *)
Definition universe (self : analyzer) : gset string :=
  list_to_set (all_references self).

(** What bounds the remaining turns of the loop: the queued items and the
    references of the graph that were not visited yet. *)
Definition weight (self : analyzer) (st : bfs_state) : nat :=
  (length (queue st) + size (universe self ∖ visited st))%nat.

(** The state of the traversal is consistent: what a level holds was
    visited, no identifier sits at two levels, levels lie between 2 and the
    depth limit (2 when the limit is lower), levels above 2 hold no seed,
    every seed was visited, and queued items are at level 2 or deeper. *)
Record traversal_inv (seeds : list string) (max_depth : Z) (st : bfs_state)
  : Prop := {
  inv_visited : ∀ k x, at_level (indirect_by_level st) k x → x ∈ visited st;
  inv_disjoint : ∀ k1 k2 x,
    at_level (indirect_by_level st) k1 x →
    at_level (indirect_by_level st) k2 x → k1 = k2;
  inv_range : ∀ k x, at_level (indirect_by_level st) k x →
    2 ≤ k ∧ k ≤ Z.max 2 max_depth;
  inv_seeds : ∀ k x, at_level (indirect_by_level st) k x → 2 < k →
    x ∉ seeds;
  inv_seeded : ∀ x, x ∈ seeds → x ∈ visited st;
  inv_queue : ∀ r l, (r, l) ∈ queue st → 2 ≤ l
}.

(** Every edge of the builder's graph starts at a stored node. *)
Definition edges_from_nodes (g : CircularKnowledgeGraph) : Prop :=
  ∀ e, e ∈ kg_edges g → e_source e ∈ PyDict.keys (kg_nodes g).

(** ** More of the analyzer, the builder and the extractor *)

(** [_get_node_references], lines 198-204 of
    [src/analyze_circular_references.py]: the targets of the edges that
    start at [node_id], in the order of the edge list. *)
Definition _get_node_references (self : analyzer) (node_id : string)
  : list string :=
  foldl (λ refs e,
           if String.eqb (e_source e) node_id
           then refs ++ [e_target_reference e] else refs)
        [] (edges self).

(** What the loop of [find_indirect_references] reads for a queued
    identifier (lines 244-251): the references of the node it stands for,
    nothing when it stands for no node or for a node whose id is false. *)
Definition references_of (self : analyzer) (current_ref : string)
  : list string :=
  match find_node_id self current_ref with
  | Some node_id =>
      if PyStr.truthy node_id then
        match PyDict.get (nodes self) node_id with
        | Some n => get_references n
        | None => []
        end
      else []
  | None => []
  end.

(** What a candidate can be in a loaded graph: the id of a node, the
    circular number of a node, the target of an edge, or a string whose
    comparison key contains, or is contained in, the key of a node's
    circular number. *)
Definition is_node_id (self : analyzer) (ref : string) : Prop :=
  ref ∈ PyDict.keys (nodes self).

Definition is_circular_no (self : analyzer) (ref : string) : Prop :=
  ref ≠ EmptyString
  ∧ ∃ node_id n, (node_id, n) ∈ nodes self ∧ get_circular_no n = ref.

Definition is_edge_target (self : analyzer) (ref : string) : Prop :=
  ∃ e, e ∈ edges self ∧ e_target_reference e = ref.

Definition is_fuzzy (norm : string → string) (self : analyzer) (ref : string)
  : Prop :=
  ∃ node_id n, (node_id, n) ∈ nodes self
    ∧ (PyStr.contains (norm ref) (norm (get_circular_no n))
       || PyStr.contains (norm (get_circular_no n)) (norm ref)) = true.

(** The sources of the edges that point to [target], in the order of the
    edge list and with repetitions. *)
Definition sources_of (es : list edge) (target : string) : list string :=
  e_source <$> filter (λ e, e_target_reference e = target) es.

(** The state of the traversal accounts for what it holds: level 2 comes
    from the references of the direct references, a deeper level from the
    references of an identifier one level up, a queued item sits at the
    level it is queued with, no level is an empty set, and what was visited
    is a seed or sits at a level. *)
Record reach_inv (self : analyzer) (direct_refs : list (string * details))
    (st : bfs_state) : Prop := {
  ri_level2 : ∀ x, at_level (indirect_by_level st) 2 x →
    ∃ item, item ∈ direct_refs ∧ x ∈ d_references item.2;
  ri_parent : ∀ k x, at_level (indirect_by_level st) k x → 2 < k →
    ∃ y, at_level (indirect_by_level st) (k - 1) y ∧ x ∈ references_of self y;
  ri_queue : ∀ r l, (r, l) ∈ queue st →
    2 ≤ l ∧ at_level (indirect_by_level st) l r;
  ri_inhabited : ∀ k s, indirect_by_level st !! k = Some s → ∃ x, x ∈ s;
  ri_cover : ∀ z, z ∈ visited st →
    z ∈ PyDict.keys direct_refs ∨ ∃ j, at_level (indirect_by_level st) j z
}.

(** Nothing within the depth limit is left behind: an identifier at a
    level below the limit is still queued, or all its references were
    visited. *)
Definition closed_inv (self : analyzer) (max_depth : Z) (st : bfs_state)
  : Prop :=
  ∀ x l, at_level (indirect_by_level st) l x → l < max_depth →
    (x, l) ∈ queue st ∨ ∀ z, z ∈ references_of self x → z ∈ visited st.

(** ** Python lists *)

Module PyList.
Section sorted.
Context {A : Type}.
Variable key : A → Z.

(** [sorted(l, key=key, reverse=True)]: decreasing keys, and items with
    equal keys in the order they have in [l] (the sort is stable, also with
    [reverse]). *)
Fixpoint insert_reverse (x : A) (l : list A) : list A :=
  match l with
  | [] => [x]
  | y :: l' =>
      if Z.leb (key y) (key x) then x :: l else y :: insert_reverse x l'
  end.

Fixpoint sorted_reverse (l : list A) : list A :=
  match l with
  | [] => []
  | x :: l' => insert_reverse x (sorted_reverse l')
  end.

(** [l] is in decreasing order of [key]: no item has a smaller key than an
    item that comes after it. *)
Fixpoint descending (l : list A) : Prop :=
  match l with
  | [] => True
  | x :: l' => (∀ y, y ∈ l' → key y ≤ key x) ∧ descending l'
  end.

End sorted.
End PyList.

(** ** Statistics of the builder *)

(** The [defaultdict(int)] that [_get_most_referenced] fills (lines 51-53 of
    [src/circular_knowledge_graph.py]). *)
Definition ref_counts (es : list edge) : list (string * Z) :=
  foldl (λ m e,
           let target := e_target_reference e in
           PyDict.set m target (default 0 (PyDict.get m target) + 1))
        [] es.

(** How many edges point to [target]. *)
Definition times_referenced (es : list edge) (target : string) : Z :=
  Z.of_nat (length (filter (λ e, e_target_reference e = target) es)).

(** [_get_most_referenced], lines 50-57. *)
Definition _get_most_referenced (self : CircularKnowledgeGraph)
  : list (string * Z) :=
  let sorted_refs := PyList.sorted_reverse snd (ref_counts (kg_edges self)) in
  take 10 sorted_refs.

(** [_get_most_outgoing_refs], lines 59-65. *)
Definition _get_most_outgoing_refs (self : CircularKnowledgeGraph)
  : list (string * Z) :=
  let sorted_nodes :=
    PyList.sorted_reverse (λ x : string * node_data, nd_reference_count x.2)
                          (kg_nodes self) in
  map (λ node : string * node_data,
         (nd_circular_no node.2, nd_reference_count node.2))
      (take 10 sorted_nodes).

(** ** GraphML escaping *)

(** [s.replace(old, new)] for a one-character [old]. *)
Fixpoint str_replace (old : ascii) (new : string) (s : string) : string :=
  match s with
  | EmptyString => EmptyString
  | String c s' =>
      if Ascii.eqb c old then (new ++ str_replace old new s')%string
      else String c (str_replace old new s')
  end.

(** [_escape_xml], lines 116-123 of [src/circular_knowledge_graph.py]: five
    replacements, the ampersand first. *)
Definition _escape_xml (text : string) : string :=
  str_replace "'"%char "&apos;"
    (str_replace "034"%char "&quot;"
       (str_replace ">"%char "&gt;"
          (str_replace "<"%char "&lt;"
             (str_replace "&"%char "&amp;" text)))).

(** What one character becomes when it is escaped once. *)
Definition escape_char (c : ascii) : string :=
  if Ascii.eqb c "&"%char then "&amp;"%string
  else if Ascii.eqb c "<"%char then "&lt;"%string
  else if Ascii.eqb c ">"%char then "&gt;"%string
  else if Ascii.eqb c "034"%char then "&quot;"%string
  else if Ascii.eqb c "'"%char then "&apos;"%string
  else String c EmptyString.

Fixpoint escape_each (s : string) : string :=
  match s with
  | EmptyString => EmptyString
  | String c s' => (escape_char c ++ escape_each s')%string
  end.

(** ** The build loop *)

Section Build.
(** The three methods of [PDFCircularExtractor] read a PDF file: their
    results are given per path. [extract_text] yields the empty string when
    the file cannot be read. *)
Variable extract_text : string → string.
Variable get_circular_number : string → string.
Variable extract_circular_references : string → list string.
(** [pdf_path.name] *)
Variable name : string → string.

(** [process_circular], lines 255-281 of
    [src/circular_knowledge_graph.py]. *)
Definition process_circular (pdf_path : string)
    (graph : CircularKnowledgeGraph) : bool * CircularKnowledgeGraph :=
  let text := extract_text pdf_path in
  if negb (PyStr.truthy text) then (false, graph)
  else
    let circular_no := get_circular_number pdf_path in
    let references := extract_circular_references pdf_path in
    (true, add_circular graph (name pdf_path) circular_no references).

(** One turn of the loop of [main], lines 304-309. *)
Definition main_step (graph : CircularKnowledgeGraph) (pdf_path : string)
  : CircularKnowledgeGraph :=
  let (success, graph) := process_circular pdf_path graph in
  let stats := kg_extraction_stats graph in
  {| kg_nodes := kg_nodes graph;
     kg_edges := kg_edges graph;
     kg_extraction_stats :=
       if success
       then {| total_pdfs := total_pdfs stats;
               successful_extractions := successful_extractions stats + 1;
               failed_extractions := failed_extractions stats;
               total_references := total_references stats |}
       else {| total_pdfs := total_pdfs stats;
               successful_extractions := successful_extractions stats;
               failed_extractions := failed_extractions stats + 1;
               total_references := total_references stats |} |}.

(** [main], lines 301-309: the graph after the loop; [pdf_files] is the
    list [sorted(pdf_files)] that the loop runs over. *)
Definition main_build (pdf_files : list string) : CircularKnowledgeGraph :=
  let graph :=
    {| kg_nodes := kg_nodes new_graph;
       kg_edges := kg_edges new_graph;
       kg_extraction_stats :=
         {| total_pdfs := Z.of_nat (length pdf_files);
            successful_extractions :=
              successful_extractions (kg_extraction_stats new_graph);
            failed_extractions :=
              failed_extractions (kg_extraction_stats new_graph);
            total_references :=
              total_references (kg_extraction_stats new_graph) |} |} in
  foldl main_step graph pdf_files.

(** The documents that the loop hands to [add_circular]: those of the
    files whose text is not empty, in the order of the loop. *)
Definition processed (pdf_files : list string)
  : list (string * string * list string) :=
  map (λ p, (name p, get_circular_number p, extract_circular_references p))
      (filter (λ p, extract_text p ≠ EmptyString) pdf_files).

End Build.

(** ** Matching references with the database *)

Record matched_circular : Type := mkMatched {
  m_reference : string;
  m_title : string;
  m_circular_no : string
}.

(** The matching loop of [main], lines 257-272 of
    [src/circular_reference_extractor.py]; [references] is the list
    [sorted(references)] that the loop runs over. The result is
    [(matched_circulars, unmatched_references)]. *)
Definition match_references (circulars : list circular)
    (references : list string) : list matched_circular * list string :=
  foldl (λ acc ref,
           let matches := search circulars ref in
           match matches with
           | [] => (acc.1, acc.2 ++ [ref])
           | _ =>
               (acc.1 ++ map (λ m, {| m_reference := ref;
                                      m_title := c_title m;
                                      m_circular_no := c_circular_no m |})
                             matches,
                acc.2)
           end)
        ([], []) references.

(** * Properties *)

(** ** Strings *)

Lemma starts_with_empty (b : string) : PyStr.starts_with "" b = true.
Proof. by destruct b. Qed.

Lemma contains_empty (b : string) : PyStr.contains "" b = true.
Proof. destruct b; simpl; by rewrite ?starts_with_empty. Qed.

Lemma keep_AZ09_upper (c : ascii) :
  Scripts.keep_AZ09 (PyStr.upper_char c) = is_ascii_alnum c.
Proof. destruct c as [[] [] [] [] [] [] [] []]; reflexivity. Qed.

Lemma upper_char_kept (c : ascii) :
  is_ascii_alnum c = true → Scripts.keep_AZ09 (PyStr.upper_char c) = true.
Proof. by rewrite keep_AZ09_upper. Qed.

Lemma sfilter_upper (s : string) :
  PyStr.sfilter Scripts.keep_AZ09 (PyStr.upper s)
  = PyStr.upper (PyStr.sfilter is_ascii_alnum s).
Proof.
  unfold PyStr.upper. induction s as [|c s IH]; simpl; [done|].
  rewrite keep_AZ09_upper. destruct (is_ascii_alnum c); simpl; by rewrite IH.
Qed.

(** On ASCII text, which is what the strings here hold, the normaliser of
    [src/scripts/] is the one the specification words. ([str.upper] also
    changes letters outside ASCII, some of them into A-Z: the two differ
    on such text.) *)
Lemma scripts_normalize_spec (s : string) :
  Scripts.normalize s = normalize_spec s.
Proof.
  unfold Scripts.normalize, normalize_spec. destruct s as [|c s]; [done|].
  cbn [PyStr.truthy negb]. apply sfilter_upper.
Qed.

Lemma root_normalize_empty : Root.normalize "" = ""%string.
Proof. reflexivity. Qed.

Lemma scripts_normalize_empty : Scripts.normalize "" = ""%string.
Proof. reflexivity. Qed.

(** ** Dictionaries *)

Section dict_facts.
Context {V : Type}.
Implicit Types (d : list (string * V)) (k : string) (v : V).

Lemma get_set_eq d k v : PyDict.get (PyDict.set d k v) k = Some v.
Proof.
  induction d as [|[k' v'] d IH]; simpl.
  - by rewrite String.eqb_refl.
  - destruct (String.eqb k' k) eqn:E; simpl; rewrite E; [done|apply IH].
Qed.

Lemma get_set_ne d k k' v :
  k ≠ k' → PyDict.get (PyDict.set d k v) k' = PyDict.get d k'.
Proof.
  intros Hne. induction d as [|[k0 v0] d IH]; simpl.
  - destruct (String.eqb_spec k k'); [done|done].
  - destruct (String.eqb_spec k0 k) as [->|]; simpl.
    + destruct (String.eqb_spec k k'); [done|done].
    + destruct (String.eqb_spec k0 k'); [done|apply IH].
Qed.

Lemma get_Some_elem d k v : PyDict.get d k = Some v → (k, v) ∈ d.
Proof.
  induction d as [|[k' v'] d IH]; simpl; [done|].
  destruct (String.eqb_spec k' k) as [->|].
  - intros [= ->]. left.
  - intros H. right. by apply IH.
Qed.

Lemma get_None_keys d k : PyDict.get d k = None ↔ k ∉ PyDict.keys d.
Proof.
  unfold PyDict.keys. induction d as [|[k' v'] d IH]; simpl.
  - split; [intros _; apply not_elem_of_nil|done].
  - rewrite not_elem_of_cons. destruct (String.eqb_spec k' k) as [->|].
    + split; [done|]. by intros [? _].
    + rewrite IH. split; [by intros ?; split|by intros [_ ?]].
Qed.

Lemma get_is_Some_keys d k : is_Some (PyDict.get d k) ↔ k ∈ PyDict.keys d.
Proof.
  destruct (PyDict.get d k) eqn:E.
  - split; [intros _|by eauto].
    destruct (decide (k ∈ PyDict.keys d)) as [|Hn]; [done|].
    apply get_None_keys in Hn. congruence.
  - split; [by intros [? ?]|]. intros Hin. by apply get_None_keys in E.
Qed.

Lemma elem_get_NoDup d k v :
  NoDup (PyDict.keys d) → (k, v) ∈ d → PyDict.get d k = Some v.
Proof.
  unfold PyDict.keys. induction d as [|[k' v'] d IH]; simpl.
  - intros _ H. by apply elem_of_nil in H.
  - intros [Hk Hnd]%NoDup_cons [[= -> ->]|Hin]%elem_of_cons.
    + by rewrite String.eqb_refl.
    + destruct (String.eqb_spec k' k) as [->|]; [|by apply IH].
      exfalso. apply Hk. apply list_elem_of_fmap. by exists (k, v).
Qed.

Lemma keys_set d k v :
  PyDict.keys (PyDict.set d k v)
  = if PyDict.mem d k then PyDict.keys d else PyDict.keys d ++ [k].
Proof.
  unfold PyDict.keys, PyDict.mem. induction d as [|[k' v'] d IH]; csimpl; [done|].
  destruct (String.eqb_spec k' k) as [->|]; csimpl; [done|].
  rewrite IH. by destruct (PyDict.get d k).
Qed.

Lemma NoDup_keys_set d k v :
  NoDup (PyDict.keys d) → NoDup (PyDict.keys (PyDict.set d k v)).
Proof.
  intros Hnd. rewrite keys_set. unfold PyDict.mem.
  destruct (PyDict.get d k) eqn:E; [done|].
  apply NoDup_app. split_and!; [done| |apply NoDup_singleton].
  intros x Hx ->%list_elem_of_singleton. by apply get_None_keys in E.
Qed.

Lemma elem_of_keys_set d k k' v :
  k' ∈ PyDict.keys (PyDict.set d k v) ↔ k' = k ∨ k' ∈ PyDict.keys d.
Proof.
  rewrite <- !get_is_Some_keys. destruct (decide (k = k')) as [->|Hne].
  - rewrite get_set_eq. split; [by left|by eauto].
  - rewrite get_set_ne by done. split; [by right|]. by intros [->|].
Qed.

Lemma count_not_elem d k : k ∉ PyDict.keys d → PyDict.count d k = 0%nat.
Proof.
  unfold PyDict.keys, PyDict.count. induction d as [|[k' v'] d IH]; csimpl; [done|].
  intros [Hne Hnin]%not_elem_of_cons. rewrite filter_cons_False by (simpl; congruence).
  by apply IH.
Qed.

Lemma count_NoDup d k :
  NoDup (PyDict.keys d) → k ∈ PyDict.keys d → PyDict.count d k = 1%nat.
Proof.
  unfold PyDict.keys. induction d as [|[k' v'] d IH]; csimpl.
  - intros _ H. by apply elem_of_nil in H.
  - intros [Hk Hnd]%NoDup_cons Hin. unfold PyDict.count.
    destruct (decide (k' = k)) as [->|Hne].
    + rewrite filter_cons_True by done. simpl. f_equal. by apply count_not_elem.
    + rewrite filter_cons_False by done. apply IH; [done|].
      apply elem_of_cons in Hin as [->|]; done.
Qed.

End dict_facts.

Lemma truthy_true (s : string) : PyStr.truthy s = true ↔ s ≠ ""%string.
Proof. destruct s; simpl; split; congruence. Qed.

(** ** [load_graph] *)

Lemma load_nodes_NoDup (ns : list node) : NoDup (PyDict.keys (load_nodes ns)).
Proof.
  unfold load_nodes.
  assert (∀ acc : list (string * node), NoDup (PyDict.keys acc) →
            NoDup (PyDict.keys (foldl (λ d n, PyDict.set d (n_id n) n) acc ns)))
    as H; [|apply H, NoDup_nil_2].
  induction ns as [|n ns IH]; intros acc Hacc; simpl; [done|].
  by apply IH, NoDup_keys_set.
Qed.

Lemma load_circular_to_node_sound (nds : list (string * node)) c node_id :
  PyDict.get (load_circular_to_node nds) c = Some node_id →
  c ≠ ""%string ∧ ∃ n, (node_id, n) ∈ nds ∧ get_circular_no n = c.
Proof.
  unfold load_circular_to_node.
  set (f := λ (m : list (string * string)) (kv : string * node),
              if PyStr.truthy (get_circular_no kv.2)
              then PyDict.set m (get_circular_no kv.2) kv.1 else m).
  assert (∀ l acc,
            (∀ kv, kv ∈ l → kv ∈ nds) →
            (∀ c id, PyDict.get acc c = Some id →
               c ≠ ""%string ∧ ∃ n, (id, n) ∈ nds ∧ get_circular_no n = c) →
            ∀ c id, PyDict.get (foldl f acc l) c = Some id →
               c ≠ ""%string ∧ ∃ n, (id, n) ∈ nds ∧ get_circular_no n = c) as H.
  { induction l as [|[k n] l IH]; intros acc Hl Hacc; simpl; [done|].
    apply IH; [intros kv ?; apply Hl; by right|].
    intros c' id'. unfold f at 1. simpl.
    destruct (PyStr.truthy (get_circular_no n)) eqn:Ht; [|by apply Hacc].
    destruct (decide (get_circular_no n = c')) as [<-|Hne].
    - rewrite get_set_eq. intros [= <-]. split; [by apply truthy_true|].
      exists n. split; [apply Hl; left|done].
    - rewrite get_set_ne by done. apply Hacc. }
  apply H; [done|]. intros ? ? [=].
Qed.

Lemma load_circular_to_node_complete (nds : list (string * node)) node_id n :
  (node_id, n) ∈ nds → get_circular_no n ≠ ""%string →
  is_Some (PyDict.get (load_circular_to_node nds) (get_circular_no n)).
Proof.
  unfold load_circular_to_node. intros Hin Hne.
  set (f := λ (m : list (string * string)) (kv : string * node),
              if PyStr.truthy (get_circular_no kv.2)
              then PyDict.set m (get_circular_no kv.2) kv.1 else m).
  assert (∀ l acc,
            is_Some (PyDict.get acc (get_circular_no n)) ∨ (node_id, n) ∈ l →
            is_Some (PyDict.get (foldl f acc l) (get_circular_no n))) as H.
  { induction l as [|[k n'] l IH]; intros acc Hor; simpl.
    - destruct Hor as [|Hnil]; [done|]. by apply elem_of_nil in Hnil.
    - apply IH. unfold f at 1. simpl.
      destruct Hor as [Hs|[[= <- <-]|Hl]%elem_of_cons].
      + left. destruct (PyStr.truthy (get_circular_no n')); [|done].
        destruct (decide (get_circular_no n' = get_circular_no n)) as [->|?].
        * rewrite get_set_eq. by eauto.
        * by rewrite get_set_ne.
      + left. apply truthy_true in Hne. rewrite Hne, get_set_eq. by eauto.
      + by right. }
  apply H. by right.
Qed.

Lemma load_graph_wf (data : graph_data) : wf_analyzer (load_graph data).
Proof.
  intros c node_id Hget. simpl in Hget.
  apply load_circular_to_node_sound in Hget as (Hne & n & Hin & Hc).
  split; [done|]. exists n. split; [|done]. simpl.
  by apply elem_get_NoDup; [apply load_nodes_NoDup|].
Qed.

(** ** The resolver *)

Section resolver_facts.
Variable norm : string → string.
Variable self : analyzer.
Hypothesis Hwf : wf_analyzer self.

Lemma fuzzy_match_elem (ref node_id : string) :
  node_id ∈ _fuzzy_match_reference norm self ref ↔
  ∃ n, (node_id, n) ∈ nodes self ∧
       (PyStr.contains (norm ref) (norm (get_circular_no n))
        || PyStr.contains (norm (get_circular_no n)) (norm ref)) = true.
Proof.
  unfold _fuzzy_match_reference.
  set (f := λ (matches : list string) (kv : string * node),
              if PyStr.contains (norm ref) (norm (get_circular_no kv.2))
                 || PyStr.contains (norm (get_circular_no kv.2)) (norm ref)
              then matches ++ [kv.1] else matches).
  assert (∀ l acc, node_id ∈ foldl f acc l ↔
            node_id ∈ acc ∨
            ∃ n, (node_id, n) ∈ l ∧
              (PyStr.contains (norm ref) (norm (get_circular_no n))
               || PyStr.contains (norm (get_circular_no n)) (norm ref)) = true)
    as H.
  { induction l as [|[k n] l IH]; intros acc; simpl.
    - split; [by left|]. intros [|(? & Hnil & _)]; [done|].
      by apply elem_of_nil in Hnil.
    - rewrite IH. unfold f at 1. simpl.
      destruct (PyStr.contains (norm ref) (norm (get_circular_no n))
                || PyStr.contains (norm (get_circular_no n)) (norm ref)) eqn:E.
      + rewrite elem_of_app, list_elem_of_singleton. split.
        * intros [[?| ->]|(n' & ? & ?)]; [by left| |].
          -- right. exists n. split; [left|done].
          -- right. exists n'. split; [by right|done].
        * intros [|(n' & [[= -> ->]|?]%elem_of_cons & ?)];
            [by left; left|by left; right|right; by exists n'].
      + split.
        * intros [|(n' & ? & ?)]; [by left|]. right. exists n'. split; [by right|done].
        * intros [|(n' & [[= -> ->]|?]%elem_of_cons & ?)];
            [by left|congruence|right; by exists n']. }
  rewrite H. split; [|by right].
  intros [Hnil|]; [|done]. by apply elem_of_nil in Hnil.
Qed.

Lemma resolve_one_ok (ref : string) :
  ∃ d o, resolve_one norm self ref = Ok d ∧ outcome_of ref d = Some o.
Proof.
  unfold resolve_one. destruct (PyDict.get (nodes self) ref) as [n|] eqn:En.
  { eexists _, ExactNode. split; [done|].
    unfold outcome_of. simpl. by rewrite String.eqb_refl. }
  destruct (PyDict.get (circular_to_node self) ref) as [node_id|] eqn:Ec.
  { destruct (Hwf _ _ Ec) as (_ & n & Hn & _). unfold subscript. rewrite Hn. simpl.
    eexists _, _. split; [done|]. unfold outcome_of. by simpl. }
  destruct (PyDict.get (reference_map self) ref) as [sources|].
  { by eexists _, ExternallyReferenced. }
  destruct (_fuzzy_match_reference norm self ref).
  - by eexists _, Unresolved.
  - by eexists _, FuzzyMatch.
Qed.

Lemma find_direct_references_from_ok (cs : list string) :
  ∀ acc, NoDup (PyDict.keys acc) →
    ∃ out, find_direct_references_from norm self acc cs = Ok out ∧
      NoDup (PyDict.keys out) ∧
      (∀ k, k ∈ PyDict.keys out ↔ k ∈ PyDict.keys acc ∨ k ∈ cs) ∧
      (∀ k, k ∈ cs →
         ∃ d, PyDict.get out k = Some d ∧ resolve_one norm self k = Ok d).
Proof.
  induction cs as [|c cs IH]; intros acc Hacc; simpl.
  - exists acc. split_and!; [done|done| |].
    + intros k. split; [by left|]. intros [|Hnil]; [done|]. by apply elem_of_nil in Hnil.
    + intros k Hnil. by apply elem_of_nil in Hnil.
  - destruct (resolve_one_ok c) as (d & o & Hd & _). rewrite Hd. simpl.
    destruct (IH (PyDict.set acc c d)) as (out & Hout & Hnd & Hkeys & Hget);
      [by apply NoDup_keys_set|].
    exists out. split_and!; [done|done| |].
    + intros k. rewrite Hkeys, elem_of_keys_set, elem_of_cons. tauto.
    + intros k [->|Hk]%elem_of_cons; [|by apply Hget].
      destruct (decide (c ∈ cs)) as [Hin|Hnin]; [by apply Hget|].
      exists d. split; [|done].
      clear Hkeys Hget Hnd IH.
      assert (PyDict.get (PyDict.set acc c d) c = Some d) as Hc by apply get_set_eq.
      revert Hout Hc Hnin. generalize (PyDict.set acc c d). clear.
      induction cs as [|c' cs IH]; intros acc; simpl.
      * by intros [= ->].
      * destruct (resolve_one norm self c') as [d'| |]; simpl; [|done|done].
        intros Hout Hc [Hne Hnin]%not_elem_of_cons.
        apply (IH (PyDict.set acc c' d')); [done| |done].
        by rewrite get_set_ne.
Qed.

Lemma find_direct_references_ok (cs : list string) :
  ∃ out, find_direct_references norm self cs = Ok out ∧
    NoDup (PyDict.keys out) ∧
    (∀ k, k ∈ PyDict.keys out ↔ k ∈ cs) ∧
    (∀ k, k ∈ cs →
       ∃ d, PyDict.get out k = Some d ∧ resolve_one norm self k = Ok d).
Proof.
  destruct (find_direct_references_from_ok cs []) as (out & Hout & Hnd & Hk & Hg);
    [apply NoDup_nil_2|].
  exists out. split_and!; [done|done| |done].
  intros k. rewrite Hk. split; [|by right].
  intros [Hnil|]; [|done]. by apply elem_of_nil in Hnil.
Qed.

End resolver_facts.

Lemma foldl_collect {A B : Type} (p : A → bool) (g : A → B)
    (l : list A) (acc : list B) :
  foldl (λ m a, if p a then m ++ [g a] else m) acc l
  = acc ++ (g <$> filter (λ a, p a = true) l).
Proof.
  revert acc. induction l as [|a l IH]; intros acc; simpl.
  - by rewrite app_nil_r.
  - rewrite IH. destruct (p a) eqn:E.
    + rewrite filter_cons_True by done. csimpl. by rewrite <- app_assoc.
    + rewrite filter_cons_False by congruence. done.
Qed.

Lemma search_elem (circulars : list circular) (reference : string) (c : circular) :
  c ∈ search circulars reference ↔
  c ∈ circulars ∧
  (PyStr.contains (Root.normalize_reference reference)
                  (Root.normalize (c_circular_no c))
   || PyStr.contains (Root.normalize (c_circular_no c))
                     (Root.normalize_reference reference)) = true.
Proof.
  unfold search.
  rewrite (foldl_collect
             (λ c, PyStr.contains (Root.normalize_reference reference)
                                  (Root.normalize (c_circular_no c))
                   || PyStr.contains (Root.normalize (c_circular_no c))
                                     (Root.normalize_reference reference)) id).
  simpl. rewrite list_fmap_id, list_elem_of_filter. tauto.
Qed.

(** ** Normalisation (C4) *)

(** C4, at the failing input. The claim: the normalisation behind identifier
    equality drops every character that is not an ASCII letter or digit and
    upper-cases the rest, so that identifiers differing only in punctuation
    get the same key. The comparison key of the top-level scripts
    ([_fuzzy_match_reference] of [src/analyze_circular_references.py] and
    [CircularDatabase.search]) drops spaces only: on [SEBI/HO/ABC/2024/5] it
    keeps every slash, it tells that identifier apart from
    [SEBI-HO-ABC-2024-5], and the fuzzy match and the database search built
    on it find nothing, where the normaliser of [src/scripts/] (which is the
    specified one, see [scripts_normalize_spec]) finds the node. *)
Theorem root_normalize_keeps_punctuation :
  Root.normalize "SEBI/HO/ABC/2024/5" = "SEBI/HO/ABC/2024/5"%string
  ∧ normalize_spec "SEBI/HO/ABC/2024/5" = "SEBIHOABC20245"%string
  ∧ Root.normalize "SEBI/HO/ABC/2024/5" ≠ Root.normalize "SEBI-HO-ABC-2024-5"
  ∧ normalize_spec "SEBI/HO/ABC/2024/5" = normalize_spec "SEBI-HO-ABC-2024-5"
  ∧ _fuzzy_match_reference Root.normalize (load_graph Scenario.dashed)
      "SEBI/HO/ABC/2024/5" = []
  ∧ _fuzzy_match_reference Scripts.normalize (load_graph Scenario.dashed)
      "SEBI/HO/ABC/2024/5" = ["a.pdf"%string]
  ∧ search [mkCircular "A circular" "SEBI-HO-ABC-2024-5"]
      "SEBI/HO/ABC/2024/5" = [].
Proof.
  split_and!.
  - vm_compute. reflexivity.
  - vm_compute. reflexivity.
  - vm_compute. discriminate.
  - vm_compute. reflexivity.
  - vm_compute. reflexivity.
  - vm_compute. reflexivity.
  - vm_compute. reflexivity.
Qed.

(** ** Fuzzy matching (C10) *)

(** C10. A node whose stored circular number is empty or missing is matched
    by [_fuzzy_match_reference] for every candidate, and a candidate whose
    comparison key is empty matches every node of the graph, with either
    generation's key; [CircularDatabase.search] does the same with the
    circulars of its database. The empty string is contained in every
    string. *)
Theorem fuzzy_match_empty_identifier :
  (∀ (norm : string → string) (data : graph_data) (ref node_id : string)
     (n : node),
     norm = Root.normalize ∨ norm = Scripts.normalize →
     PyDict.get (nodes (load_graph data)) node_id = Some n →
     n_circular_no n = None ∨ n_circular_no n = Some ""%string
       ∨ norm ref = ""%string →
     node_id ∈ _fuzzy_match_reference norm (load_graph data) ref)
  ∧ (∀ (circulars : list circular) (c : circular) (reference : string),
       c ∈ circulars →
       c_circular_no c = ""%string
         ∨ Root.normalize_reference reference = ""%string →
       c ∈ search circulars reference).
Proof.
  split.
  - intros norm data ref node_id n Hnorm Hget Hempty.
    apply fuzzy_match_elem. exists n. split; [by apply get_Some_elem|].
    assert (norm "" = ""%string) as Hn0 by (by destruct Hnorm as [-> | ->]).
    assert (norm (get_circular_no n) = ""%string ∨ norm ref = ""%string) as [-> | ->].
    { unfold get_circular_no.
      destruct Hempty as [-> | [-> | ?]]; simpl; [by left|by left|by right]. }
    + by rewrite (contains_empty (norm ref)), orb_true_r.
    + by rewrite contains_empty.
  - intros circulars c reference Hin Hempty. apply search_elem. split; [done|].
    destruct Hempty as [-> | ->].
    + change (Root.normalize "") with ""%string.
      by rewrite (contains_empty (Root.normalize_reference reference)), orb_true_r.
    + by rewrite contains_empty.
Qed.

Lemma fuzzy_match_empty_identifier_witness :
  "a.pdf"%string ∈
    _fuzzy_match_reference Root.normalize
      (load_graph {| data_nodes := [mkNode "a.pdf" "a.pdf" None (Some []) 0];
                     data_edges := [] |})
      "SEBI/HO/ABC/2024/5"
  ∧ mkCircular "A circular" "CIR/2024/1" ∈
      search [mkCircular "A circular" "CIR/2024/1"] "   ".
Proof.
  split.
  - apply (proj1 fuzzy_match_empty_identifier Root.normalize _ _ _
             (mkNode "a.pdf" "a.pdf" None (Some []) 0)).
    + by left.
    + reflexivity.
    + by left.
  - apply (proj2 fuzzy_match_empty_identifier).
    + apply list_elem_of_singleton. reflexivity.
    + right. reflexivity.
Defined.

(** ** The resolver (C3, C8, C2) *)

(** C3, refuted at scenario B. The candidate [SEBI/HO/ABC/2024/5] is no node
    id and has the normal form of the circular number [SEBI HO ABC 2024 5]
    of the node [a.pdf], yet the resolver does not classify it as an alias:
    the top-level analyzer leaves it unresolved, the one of [src/scripts/]
    reports a fuzzy match. *)
Lemma spaced_identifier_not_alias :
  PyDict.get (nodes (load_graph Scenario.spaced)) "SEBI/HO/ABC/2024/5" = None
  ∧ (∃ n, PyDict.get (nodes (load_graph Scenario.spaced)) "a.pdf" = Some n
          ∧ normalize_spec "SEBI/HO/ABC/2024/5"
            = normalize_spec (get_circular_no n))
  ∧ (∃ d, find_direct_references Root.normalize (load_graph Scenario.spaced)
            ["SEBI/HO/ABC/2024/5"%string]
          = Ok [("SEBI/HO/ABC/2024/5"%string, d)]
          ∧ outcome_of "SEBI/HO/ABC/2024/5" d = Some Unresolved)
  ∧ (∃ d, find_direct_references Scripts.normalize (load_graph Scenario.spaced)
            ["SEBI/HO/ABC/2024/5"%string]
          = Ok [("SEBI/HO/ABC/2024/5"%string, d)]
          ∧ outcome_of "SEBI/HO/ABC/2024/5" d = Some FuzzyMatch).
Proof.
  split_and!.
  - vm_compute. reflexivity.
  - eexists. split; vm_compute; reflexivity.
  - eexists. split; vm_compute; reflexivity.
  - eexists. split; vm_compute; reflexivity.
Qed.

(** C3, amended. A candidate that is no node id and that is, verbatim and
    not after normalisation, the non-empty circular number stored for some
    node is classified as an alias, and the entry names a node that carries
    that circular number. *)
Theorem alias_by_verbatim_identifier
    (norm : string → string) (data : graph_data)
    (candidate node_id : string) (n : node) :
  PyDict.get (nodes (load_graph data)) candidate = None →
  PyDict.get (nodes (load_graph data)) node_id = Some n →
  get_circular_no n = candidate →
  candidate ≠ ""%string →
  ∃ d node_id' n',
    find_direct_references norm (load_graph data) [candidate]
      = Ok [(candidate, d)]
    ∧ outcome_of candidate d = Some AliasNode
    ∧ d = in_graph node_id' n'
    ∧ PyDict.get (nodes (load_graph data)) node_id' = Some n'
    ∧ get_circular_no n' = candidate.
Proof.
  intros Hnone Hget Hcirc Hne.
  destruct (load_circular_to_node_complete (nodes (load_graph data)) node_id n)
    as [node_id' Hc]; [by apply get_Some_elem|by rewrite Hcirc|].
  rewrite Hcirc in Hc.
  destruct (load_graph_wf data _ _ Hc) as (_ & n' & Hn' & Hcirc').
  exists (in_graph node_id' n'), node_id', n'.
  split_and!; [|  |done|done|done].
  - unfold find_direct_references. simpl. unfold resolve_one.
    rewrite Hnone. simpl in Hc. simpl. rewrite Hc.
    unfold subscript. simpl in Hn'. rewrite Hn'. reflexivity.
  - unfold outcome_of. simpl.
    destruct (String.eqb_spec node_id' candidate) as [->|]; [|done].
    simpl in Hn', Hnone. congruence.
Qed.

Lemma alias_by_verbatim_identifier_witness :
  ∃ d node_id' n',
    find_direct_references Root.normalize (load_graph Scenario.spaced)
      ["SEBI HO ABC 2024 5"%string]
      = Ok [("SEBI HO ABC 2024 5"%string, d)]
    ∧ outcome_of "SEBI HO ABC 2024 5" d = Some AliasNode
    ∧ d = in_graph node_id' n'
    ∧ PyDict.get (nodes (load_graph Scenario.spaced)) node_id' = Some n'
    ∧ get_circular_no n' = "SEBI HO ABC 2024 5"%string.
Proof.
  apply (alias_by_verbatim_identifier Root.normalize Scenario.spaced
           "SEBI HO ABC 2024 5" "a.pdf"
           (mkNode "a.pdf" "a.pdf" (Some "SEBI HO ABC 2024 5"%string) (Some []) 0)).
  - reflexivity.
  - reflexivity.
  - reflexivity.
  - discriminate.
Defined.

(** C8. Whatever the self-reference filter and the comparison key, the
    resolver returns (it raises nothing), its output holds exactly one entry
    for every candidate that survived the filter, that entry's outcome is
    one of the five categories, and the output holds no other key. *)
Theorem resolve_complete
    (norm : string → string)
    (selfFilter : string → list string → list string)
    (candidates : list string) (graph : graph_data) (selfIdentifier : string) :
  ∃ out,
    resolve norm selfFilter candidates graph selfIdentifier = Ok out
    ∧ (∀ c, c ∈ selfFilter selfIdentifier candidates →
         PyDict.count out c = 1%nat
         ∧ ∃ d o, PyDict.get out c = Some d ∧ outcome_of c d = Some o)
    ∧ (∀ c, c ∈ PyDict.keys out → c ∈ selfFilter selfIdentifier candidates).
Proof.
  unfold resolve.
  destruct (find_direct_references_ok norm (load_graph graph)
              (load_graph_wf graph) (selfFilter selfIdentifier candidates))
    as (out & Hout & Hnd & Hkeys & Hget).
  exists out. split_and!; [done| |by intros c ?; apply Hkeys].
  intros c Hc. split; [by apply count_NoDup; [|apply Hkeys]|].
  destruct (Hget c Hc) as (d & Hd & Hres).
  destruct (resolve_one_ok norm (load_graph graph) (load_graph_wf graph) c)
    as (d' & o & Hres' & Ho).
  exists d, o. split; [done|]. congruence.
Qed.

Lemma resolve_complete_witness :
  ∃ out,
    resolve Root.normalize Root.filter_self_references
      ["SEBI HO ABC 2024 5"; "CIR/2024/7"]%string Scenario.spaced
      "SEBI/HO/XYZ/2025/1" = Ok out
    ∧ PyDict.count out "CIR/2024/7" = 1%nat
    ∧ ∃ d o, PyDict.get out "CIR/2024/7" = Some d
             ∧ outcome_of "CIR/2024/7" d = Some o.
Proof.
  destruct (resolve_complete Root.normalize Root.filter_self_references
              ["SEBI HO ABC 2024 5"; "CIR/2024/7"]%string Scenario.spaced
              "SEBI/HO/XYZ/2025/1") as (out & Hout & Hall & _).
  exists out. split; [exact Hout|].
  apply Hall. vm_compute. right. left.
Defined.

(** C2, at the failing input. The claim: a candidate is dropped exactly
    when its normal form equals the one of the self identifier, and
    containment drops nothing. The two filters of the top-level scripts
    compare the strings as they are written, by containment: for the
    document [SEBI/HO/1] they drop [SEBI/HO/12], the number of another
    circular, which merely starts with the document's number and has
    another normal form, so that it is missing from the resolver's output.
    The filter of [src/scripts/], which its comment announces as skipping
    exact matches only, keeps it. *)
Theorem top_level_filters_drop_by_containment :
  normalize_spec "SEBI/HO/12" ≠ normalize_spec "SEBI/HO/1"
  ∧ Root.filter_self_references "SEBI/HO/1"
      ["SEBI/HO/12"; "CIR/2024/7"]%string
    = ["CIR/2024/7"%string]
  ∧ Root.main_filter_self_references "SEBI/HO/1"
      ["SEBI/HO/12"; "CIR/2024/7"]%string
    = ["CIR/2024/7"%string]
  ∧ resolve Root.normalize Root.filter_self_references
      ["SEBI/HO/12"%string] (mkData [] []) "SEBI/HO/1" = Ok []
  ∧ resolve Root.normalize Root.main_filter_self_references
      ["SEBI/HO/12"%string] (mkData [] []) "SEBI/HO/1" = Ok []
  ∧ Scripts.filter_self_references "SEBI/HO/1"
      ["SEBI/HO/12"; "CIR/2024/7"]%string
    = ["SEBI/HO/12"; "CIR/2024/7"]%string
  ∧ resolve Scripts.normalize Scripts.filter_self_references
      ["SEBI/HO/12"%string] (mkData [] []) "SEBI/HO/1"
    = Ok [("SEBI/HO/12"%string, external)].
Proof.
  split_and!.
  - vm_compute. discriminate.
  - vm_compute. reflexivity.
  - vm_compute. reflexivity.
  - vm_compute. reflexivity.
  - vm_compute. reflexivity.
  - vm_compute. reflexivity.
  - vm_compute. reflexivity.
Qed.

(** ** The traversal engine *)

Lemma at_level_add (m : gmap Z (gset string)) (l k : Z) (r x : string) :
  at_level (level_add m l r) k x ↔ at_level m k x ∨ (k = l ∧ x = r).
Proof.
  unfold at_level, level_add. destruct (decide (l = k)) as [->|Hne].
  - rewrite lookup_insert_eq. split.
    + intros (s & [= <-] & Hx). apply elem_of_union in Hx as [Hx|Hx].
      * right. apply elem_of_singleton in Hx. by split.
      * left. destruct (m !! k) as [s|]; simpl in Hx; [by exists s|].
        by apply not_elem_of_empty in Hx.
    + intros [(s & Hs & Hx)|[_ ->]]; eexists; (split; [done|]).
      * rewrite Hs. simpl. set_solver.
      * set_solver.
  - rewrite lookup_insert_ne by done. split; [by left|].
    intros [?|[-> _]]; [done|congruence].
Qed.

Section discover_facts.
Variable level : Z.

Lemma discover_visited (st : bfs_state) (ref : string) :
  visited (discover level st ref) = {[ref]} ∪ visited st.
Proof.
  unfold discover. destruct (decide (ref ∈ visited st)); simpl; set_solver.
Qed.

Lemma discover_at_level (st : bfs_state) (ref : string) (k : Z) (x : string) :
  at_level (indirect_by_level (discover level st ref)) k x ↔
  at_level (indirect_by_level st) k x
  ∨ (k = level ∧ x = ref ∧ ref ∉ visited st).
Proof.
  unfold discover. destruct (decide (ref ∈ visited st)); simpl.
  - split; [by left|]. intros [?|(_ & _ & ?)]; done.
  - rewrite at_level_add. split; intros [?|?]; [by left|right|by left|right];
      naive_solver.
Qed.

Lemma discover_queue (st : bfs_state) (ref : string) :
  queue (discover level st ref)
  = queue st ++ (if decide (ref ∈ visited st) then [] else [(ref, level)]).
Proof.
  unfold discover. destruct (decide (ref ∈ visited st)); simpl;
    by rewrite ?app_nil_r.
Qed.

Lemma discover_all_visited (refs : list string) (st : bfs_state) :
  visited (discover_all level st refs) = list_to_set refs ∪ visited st.
Proof.
  unfold discover_all. revert st.
  induction refs as [|r refs IH]; intros st; simpl; [set_solver|].
  rewrite IH, discover_visited. set_solver.
Qed.

Lemma discover_all_at_level (refs : list string) (st : bfs_state)
    (k : Z) (x : string) :
  at_level (indirect_by_level (discover_all level st refs)) k x →
  at_level (indirect_by_level st) k x
  ∨ (k = level ∧ x ∈ refs ∧ x ∉ visited st).
Proof.
  unfold discover_all. revert st.
  induction refs as [|r refs IH]; intros st; simpl; [by left|].
  intros [H|(-> & Hin & Hv)]%IH.
  - apply discover_at_level in H as [?|(-> & -> & ?)]; [by left|].
    right. split_and!; [done|left|done].
  - right. rewrite discover_visited in Hv.
    split_and!; [done|by right|set_solver].
Qed.

Lemma discover_all_queue (refs : list string) (st : bfs_state)
    (r : string) (l : Z) :
  (r, l) ∈ queue (discover_all level st refs) →
  (r, l) ∈ queue st ∨ l = level.
Proof.
  unfold discover_all. revert st.
  induction refs as [|r' refs IH]; intros st; simpl; [by left|].
  intros [H|?]%IH; [|by right].
  rewrite discover_queue in H. apply elem_of_app in H as [?|H]; [by left|].
  destruct (decide (r' ∈ visited st)).
  - by apply elem_of_nil in H.
  - apply list_elem_of_singleton in H as [= _ ->]. by right.
Qed.

Lemma discover_weight (self : analyzer) (st : bfs_state) (ref : string) :
  ref ∈ universe self →
  weight self (discover level st ref) = weight self st.
Proof.
  intros Hu. unfold weight, discover.
  destruct (decide (ref ∈ visited st)) as [|Hn]; simpl; [done|].
  rewrite length_app. simpl.
  assert (universe self ∖ visited st
          = {[ref]} ∪ universe self ∖ ({[ref]} ∪ visited st)) as ->.
  { apply set_eq. intros y. rewrite elem_of_union, !elem_of_difference,
      elem_of_union, elem_of_singleton.
    destruct (decide (y = ref)) as [->|]; naive_solver. }
  pose proof (size_union (C:=gset string) {[ref]}
                (universe self ∖ ({[ref]} ∪ visited st))) as Hsz.
  rewrite Hsz by set_solver. rewrite size_singleton. lia.
Qed.

Lemma discover_all_weight (self : analyzer) (refs : list string)
    (st : bfs_state) :
  (∀ x, x ∈ refs → x ∈ universe self) →
  weight self (discover_all level st refs) = weight self st.
Proof.
  unfold discover_all. revert st.
  induction refs as [|r refs IH]; intros st Hall; simpl; [done|].
  rewrite IH by (intros; apply Hall; by right).
  apply discover_weight, Hall. left.
Qed.

End discover_facts.

Lemma references_in_universe (self : analyzer) (node_id : string) (n : node)
    (x : string) :
  PyDict.get (nodes self) node_id = Some n →
  x ∈ get_references n → x ∈ universe self.
Proof.
  intros Hget Hx. unfold universe, all_references.
  apply elem_of_list_to_set, list_elem_of_In, in_flat_map.
  exists (node_id, n). split; apply list_elem_of_In; [|done].
  by apply get_Some_elem.
Qed.

Lemma size_list_to_set_le (l : list string) :
  (size (list_to_set l : gset string) ≤ length l)%nat.
Proof.
  induction l as [|x l IH]; simpl; [done|].
  rewrite (size_union_alt (C:=gset string) {[x]} (list_to_set l)).
  rewrite size_singleton.
  assert (list_to_set l ∖ {[x]} ⊆ (list_to_set l : gset string)) as Hsub
    by set_solver.
  apply subseteq_size in Hsub. lia.
Qed.

Lemma weight_le_fuel_bound (self : analyzer) (st : bfs_state) :
  (weight self st ≤ fuel_bound self st)%nat.
Proof.
  unfold weight, fuel_bound, universe.
  pose proof (size_list_to_set_le (all_references self)).
  assert (list_to_set (all_references self) ∖ visited st
          ⊆ (list_to_set (all_references self) : gset string)) as Hsub
    by set_solver.
  apply subseteq_size in Hsub. lia.
Qed.

(** One turn of the loop on a loaded graph returns, and it leaves the
    weight of the state as it found it. *)
Lemma expand_ok (self : analyzer) (max_depth : Z)
    (current_ref : string) (level : Z) (st : bfs_state) :
  wf_analyzer self →
  ∃ st', expand self max_depth current_ref level st = Ok st'
         ∧ weight self st' = weight self st
         ∧ (st' = st
            ∨ level < max_depth
              ∧ ∃ node_id n, PyDict.get (nodes self) node_id = Some n
                  ∧ st' = discover_all (level + 1) st (get_references n)).
Proof.
  intros Hwf. unfold expand.
  destruct (Z.leb_spec max_depth level) as [|Hlt]; [by exists st; eauto|].
  assert (∀ node_id, is_Some (PyDict.get (nodes self) node_id) →
            ∃ st', (if PyStr.truthy node_id
                    then n ← subscript (nodes self) node_id;
                         Ok (discover_all (level + 1) st (get_references n))
                    else Ok st) = Ok st'
              ∧ weight self st' = weight self st
              ∧ (st' = st
                 ∨ level < max_depth
                   ∧ ∃ node_id n, PyDict.get (nodes self) node_id = Some n
                       ∧ st' = discover_all (level + 1) st (get_references n)))
    as Hnode.
  { intros node_id [n Hn]. destruct (PyStr.truthy node_id); [|by exists st; eauto].
    unfold subscript. rewrite Hn. simpl. eexists. split_and!; [done| |].
    - apply discover_all_weight. intros x Hx.
      by eapply references_in_universe.
    - right. split; [done|]. by exists node_id, n. }
  unfold find_node_id, PyDict.mem.
  destruct (PyDict.get (nodes self) current_ref) as [n|] eqn:En.
  { apply Hnode. rewrite En. by eauto. }
  destruct (PyDict.get (circular_to_node self) current_ref) as [node_id|] eqn:Ec;
    [|by exists st; eauto].
  apply Hnode. destruct (Hwf _ _ Ec) as (_ & n & Hn & _). by eauto.
Qed.

(** The loop ends: on a loaded graph, fuel no smaller than the weight of the
    state is never used up, and nothing is raised. *)
Lemma bfs_enough_fuel (self : analyzer) (max_depth : Z) (fuel : nat) :
  wf_analyzer self →
  ∀ st, (weight self st ≤ fuel)%nat →
    ∃ st', bfs fuel self max_depth st = Ok st'.
Proof.
  intros Hwf. induction fuel as [|fuel IH]; intros st Hw.
  - destruct st as [lv vs [|[r l] q]]; [by eexists|].
    unfold weight in Hw. simpl in Hw. lia.
  - destruct st as [lv vs [|[r l] q]]; [by eexists|]. simpl.
    destruct (expand_ok self max_depth r l (mkState lv vs q) Hwf)
      as (st' & -> & Hw' & _). simpl.
    apply IH. rewrite Hw'. unfold weight in *. simpl in *. lia.
Qed.

(** More fuel than needed changes nothing. *)
Lemma bfs_more_fuel (self : analyzer) (max_depth : Z) (fuel : nat) :
  ∀ st st' fuel', bfs fuel self max_depth st = Ok st' →
    (fuel ≤ fuel')%nat → bfs fuel' self max_depth st = Ok st'.
Proof.
  induction fuel as [|fuel IH]; intros st st' fuel' Hbfs Hle.
  - destruct st as [lv vs [|[r l] q]]; simpl in Hbfs; [|done].
    by destruct fuel'.
  - destruct fuel' as [|fuel']; [lia|].
    destruct st as [lv vs [|[r l] q]]; simpl in *; [done|].
    destruct (expand self max_depth r l (mkState lv vs q)) as [st1| |];
      simpl in *; [|done|done].
    apply (IH _ _ _ Hbfs). lia.
Qed.

(** An induction principle for the loop: what holds of the state at entry
    and is kept by a turn holds of the state at exit. *)
Lemma bfs_invariant (self : analyzer) (max_depth : Z)
    (P : bfs_state → Prop) :
  (∀ lv vs r l q st',
     P (mkState lv vs ((r, l) :: q)) →
     expand self max_depth r l (mkState lv vs q) = Ok st' → P st') →
  ∀ fuel st st', P st → bfs fuel self max_depth st = Ok st' →
    P st' ∧ queue st' = [].
Proof.
  intros Hstep. induction fuel as [|fuel IH]; intros st st' HP Hbfs.
  - destruct st as [lv vs [|[r l] q]]; simpl in Hbfs; [|done].
    by injection Hbfs as <-.
  - destruct st as [lv vs [|[r l] q]]; simpl in Hbfs.
    + by injection Hbfs as <-.
    + destruct (expand self max_depth r l (mkState lv vs q)) as [st1| |] eqn:E;
        simpl in Hbfs; [|done|done].
      apply (IH st1); [|done]. by eapply Hstep.
Qed.

Lemma seed_one_eq (st : bfs_state) (item : string * details) :
  seed_one st item
  = discover_all 2
      {| indirect_by_level := indirect_by_level st;
         visited := {[item.1]} ∪ visited st;
         queue := queue st |}
      (d_references item.2).
Proof. unfold seed_one. by destruct (d_references item.2). Qed.

Lemma expand_cases (self : analyzer) (max_depth : Z)
    (current_ref : string) (level : Z) (st st' : bfs_state) :
  expand self max_depth current_ref level st = Ok st' →
  st' = st
  ∨ level < max_depth
    ∧ ∃ node_id n, PyDict.get (nodes self) node_id = Some n
        ∧ st' = discover_all (level + 1) st (get_references n).
Proof.
  unfold expand. destruct (Z.leb_spec max_depth level) as [|Hlt].
  { intros [= <-]. by left. }
  destruct (find_node_id self current_ref) as [node_id|];
    [|intros [= <-]; by left].
  destruct (PyStr.truthy node_id); [|intros [= <-]; by left].
  unfold subscript. destruct (PyDict.get (nodes self) node_id) as [n|] eqn:En;
    simpl; [|done].
  intros [= <-]. right. split; [done|]. by exists node_id, n.
Qed.

Section invariant_facts.
Variable seeds : list string.
Variable max_depth : Z.

Lemma discover_all_inv (level : Z) (refs : list string) (st : bfs_state) :
  traversal_inv seeds max_depth st →
  2 ≤ level → level ≤ Z.max 2 max_depth →
  traversal_inv seeds max_depth (discover_all level st refs).
Proof.
  intros [Hv Hd Hr Hs Hsd Hq] Hlo Hhi.
  assert (∀ x, x ∈ visited st → x ∈ visited (discover_all level st refs))
    as Hmono by (intros x ?; rewrite discover_all_visited; set_solver).
  split.
  - intros k x [H|(-> & Hin & _)]%discover_all_at_level; [by apply Hmono, (Hv k)|].
    rewrite discover_all_visited. set_solver.
  - intros k1 k2 x [H1|(-> & _ & Hn1)]%discover_all_at_level
                   [H2|(-> & _ & Hn2)]%discover_all_at_level.
    + by eapply Hd.
    + exfalso. by eapply Hn2, Hv.
    + exfalso. by eapply Hn1, Hv.
    + done.
  - intros k x [H|(-> & _ & _)]%discover_all_at_level; [by eapply Hr|done].
  - intros k x [H|(-> & _ & Hn)]%discover_all_at_level Hk; [by eapply Hs|].
    intros Hx. by apply Hn, Hsd.
  - intros x Hx. by apply Hmono, Hsd.
  - intros r l [H| ->]%discover_all_queue; [by eapply Hq|done].
Qed.

Lemma pop_inv lv vs (r : string) (l : Z) q :
  traversal_inv seeds max_depth (mkState lv vs ((r, l) :: q)) →
  traversal_inv seeds max_depth (mkState lv vs q) ∧ 2 ≤ l.
Proof.
  intros [Hv Hd Hr Hs Hsd Hq]. split; [split; try done|].
  - intros r' l' Hin. apply (Hq r' l'). by right.
  - apply (Hq r l). left.
Qed.

Lemma bfs_inv (self : analyzer) (fuel : nat) (st st' : bfs_state) :
  traversal_inv seeds max_depth st →
  bfs fuel self max_depth st = Ok st' →
  traversal_inv seeds max_depth st'.
Proof.
  intros Hinv Hbfs.
  refine (proj1 (bfs_invariant self max_depth (traversal_inv seeds max_depth)
                   _ fuel st st' Hinv Hbfs)).
  intros lv vs r l q st1 [Hpop Hl]%pop_inv
         [->|(Hlt & node_id & n & _ & ->)]%expand_cases; [done|].
  apply discover_all_inv; [done|lia|lia].
Qed.

End invariant_facts.

Lemma initial_inv : traversal_inv [] 2 initial_state.
Proof.
  split; simpl.
  - intros k x (s & Hs & _). by rewrite lookup_empty in Hs.
  - intros k1 k2 x (s & Hs & _). by rewrite lookup_empty in Hs.
  - intros k x (s & Hs & _). by rewrite lookup_empty in Hs.
  - intros k x _ _. apply not_elem_of_nil.
  - intros x Hx. by apply elem_of_nil in Hx.
  - intros r l Hx. by apply elem_of_nil in Hx.
Qed.

Lemma seed_inv (direct_refs : list (string * details)) :
  traversal_inv [] 2 (seed direct_refs)
  ∧ ∀ x, x ∈ PyDict.keys direct_refs → x ∈ visited (seed direct_refs).
Proof.
  unfold seed.
  assert (∀ st, traversal_inv [] 2 st →
            traversal_inv [] 2 (foldl seed_one st direct_refs)
            ∧ (∀ x, x ∈ visited st →
                 x ∈ visited (foldl seed_one st direct_refs))
            ∧ ∀ x, x ∈ PyDict.keys direct_refs →
                 x ∈ visited (foldl seed_one st direct_refs)) as H.
  { unfold PyDict.keys.
    induction direct_refs as [|[key d] rest IH]; intros st Hinv; csimpl.
    - split_and!; [done|done|]. intros x Hx. by apply elem_of_nil in Hx.
    - assert (traversal_inv [] 2 (seed_one st (key, d))) as Hone.
      { rewrite seed_one_eq. apply discover_all_inv; [|done|done].
        destruct Hinv as [Hv Hd Hr Hs Hsd Hq]. split; simpl in *.
        - intros k x Hx. apply elem_of_union. right. by eapply Hv.
        - exact Hd.
        - exact Hr.
        - exact Hs.
        - intros x Hx. by apply elem_of_nil in Hx.
        - exact Hq. }
      assert (∀ x, x = key ∨ x ∈ visited st →
                x ∈ visited (seed_one st (key, d))) as Hvis.
      { intros x Hx. rewrite seed_one_eq, discover_all_visited. simpl.
        set_solver. }
      destruct (IH _ Hone) as (Hi & Hm & Hk). split_and!; [done| |].
      + intros x Hx. apply Hm, Hvis. by right.
      + intros x [->|Hx]%elem_of_cons; [|by apply Hk].
        apply Hm, Hvis. by left. }
  destruct (H _ initial_inv) as (? & _ & ?). by split.
Qed.

Lemma seeded_inv (direct_refs : list (string * details)) (max_depth : Z) :
  traversal_inv (PyDict.keys direct_refs) max_depth (seed direct_refs).
Proof.
  destruct (seed_inv direct_refs) as [[Hv Hd Hr Hs Hsd Hq] Hkeys].
  split; try done.
  - intros k x Hx. specialize (Hr k x Hx). lia.
  - intros k x Hx Hk. specialize (Hr k x Hx). lia.
Qed.

(** The engine on a loaded graph: it returns, and what it returns comes from
    a final state that satisfies the invariant. *)
Lemma find_indirect_references_inv
    (data : graph_data) (direct_refs : list (string * details))
    (max_depth : Z) :
  ∃ st, find_indirect_references (load_graph data) direct_refs max_depth
        = Ok (indirect_by_level st)
        ∧ traversal_inv (PyDict.keys direct_refs) max_depth st.
Proof.
  unfold find_indirect_references.
  destruct (bfs_enough_fuel (load_graph data) max_depth
              (fuel_bound (load_graph data) (seed direct_refs))
              (load_graph_wf data) (seed direct_refs)
              (weight_le_fuel_bound _ _)) as [st Hst].
  exists st. rewrite Hst. split; [done|].
  eapply bfs_inv; [apply seeded_inv|done].
Qed.

(** With a depth limit of 2 or less the loop only empties the queue. *)
Lemma bfs_drain (self : analyzer) (max_depth : Z) (fuel : nat) :
  ∀ st, (length (queue st) ≤ fuel)%nat →
    (∀ r l, (r, l) ∈ queue st → max_depth ≤ l) →
    bfs fuel self max_depth st
    = Ok {| indirect_by_level := indirect_by_level st;
            visited := visited st;
            queue := [] |}.
Proof.
  induction fuel as [|fuel IH]; intros [lv vs [|[r l] q]] Hlen Hq; simpl in *;
    [done|lia|done|].
  unfold expand. assert (max_depth ≤ l) as Hl by (apply (Hq r l); left).
  destruct (Z.leb_spec max_depth l); [|lia]. simpl.
  rewrite IH; [done|simpl; lia|]. simpl. intros r' l' Hin. apply (Hq r' l').
  by right.
Qed.

Lemma shallow_depth_seed_frontier
    (self : analyzer) (direct_refs : list (string * details))
    (max_depth : Z) :
  max_depth ≤ 2 →
  find_indirect_references self direct_refs max_depth
  = Ok (indirect_by_level (seed direct_refs)).
Proof.
  intros Hm. unfold find_indirect_references.
  rewrite bfs_drain; [done|unfold fuel_bound; lia|].
  intros r l Hin.
  pose proof (inv_queue _ _ _ (seeded_inv direct_refs max_depth) r l Hin). lia.
Qed.

(** ** Depth limits (C1, C9) *)

(** C1, at the failing input. The claim: with [max_depth = 1] the engine
    returns an empty result. In the two-document cycle, [X]'s citation [Y]
    resolves to the node [Y.pdf], whose reference [X] the seeding loop
    records at level 2 without looking at [max_depth]: the result with
    [max_depth = 1] has the key 2. Nothing is raised. *)
Theorem depth_one_returns_level_two :
  find_direct_references Root.normalize (load_graph Scenario.cycle)
    ["Y"%string] = Ok Scenario.cycle_direct
  ∧ find_indirect_references (load_graph Scenario.cycle)
      Scenario.cycle_direct 1
    = Ok {[ 2 := {[ "X"%string ]} ]}
  ∧ find_indirect_references (load_graph Scenario.cycle)
      Scenario.cycle_direct 1 ≠ Ok ∅.
Proof.
  split_and!.
  - vm_compute. reflexivity.
  - vm_compute. reflexivity.
  - vm_compute. discriminate.
Qed.

(** For a depth limit of 2 or more, every level of the result lies between
    2 and the limit: the bound the docstring of [find_indirect_references]
    announces holds there, and the seeding loop breaks it below 2. *)
Lemma levels_within_depth
    (data : graph_data) (direct_refs : list (string * details))
    (max_depth : Z) :
  2 ≤ max_depth →
  ∃ r, find_indirect_references (load_graph data) direct_refs max_depth = Ok r
       ∧ ∀ k x, at_level r k x → 2 ≤ k ∧ k ≤ max_depth.
Proof.
  intros Hm.
  destruct (find_indirect_references_inv data direct_refs max_depth)
    as (st & Hst & Hinv).
  eexists. split; [done|]. intros k x Hx.
  pose proof (inv_range _ _ _ Hinv k x Hx). lia.
Qed.

(** C9, refuted. With [max_depth = 0] the engine raises nothing: it
    returns a result. *)
Lemma depth_zero_not_rejected :
  find_indirect_references (load_graph Scenario.cycle)
    Scenario.cycle_direct 0
  = Ok {[ 2 := {[ "X"%string ]} ]}
  ∧ ∀ e, find_indirect_references (load_graph Scenario.cycle)
           Scenario.cycle_direct 0 ≠ Raised e.
Proof.
  assert (find_indirect_references (load_graph Scenario.cycle)
            Scenario.cycle_direct 0
          = Ok {[ 2 := {[ "X"%string ]} ]}) as H
    by (vm_compute; reflexivity).
  split; [done|]. intros e. rewrite H. discriminate.
Qed.

(** C9, amended. A depth limit below 1 is not rejected: on every graph
    and for every direct-reference map the engine raises nothing and
    returns a result. *)
Theorem depth_below_one_not_rejected
    (data : graph_data) (direct_refs : list (string * details))
    (max_depth : Z) :
  max_depth < 1 →
  ∃ r, find_indirect_references (load_graph data) direct_refs max_depth = Ok r.
Proof.
  intros _.
  destruct (find_indirect_references_inv data direct_refs max_depth)
    as (st & Hst & _).
  by exists (indirect_by_level st).
Qed.

Lemma depth_below_one_not_rejected_witness :
  ∃ r, find_indirect_references (load_graph Scenario.cycle)
         Scenario.cycle_direct (-3) = Ok r.
Proof.
  apply (depth_below_one_not_rejected Scenario.cycle Scenario.cycle_direct
           (-3)).
  reflexivity.
Defined.

(** ** Levels and seeds (C5) *)

(** C5, refuted. [S] cites [AB], whose document cites [A B]: the two
    spellings have one normal form, the visited set compares them as they
    are written, and the result holds [AB] at level 2 and [A B] at
    level 3. *)
Lemma respelled_identifier_at_two_levels :
  ∃ direct_refs r,
    find_direct_references Root.normalize (load_graph Scenario.respelled)
      ["S"%string] = Ok direct_refs
    ∧ find_indirect_references (load_graph Scenario.respelled) direct_refs 5
      = Ok r
    ∧ at_level r 2 "AB" ∧ at_level r 3 "A B"
    ∧ normalize_spec "AB" = normalize_spec "A B"
    ∧ Root.normalize "AB" = Root.normalize "A B".
Proof.
  eexists _, _. split_and!.
  - vm_compute. reflexivity.
  - vm_compute. reflexivity.
  - exists {[ "AB"%string ]}.
    split; [vm_compute; reflexivity | by apply elem_of_singleton].
  - exists {[ "A B"%string ]}.
    split; [vm_compute; reflexivity | by apply elem_of_singleton].
  - vm_compute. reflexivity.
  - vm_compute. reflexivity.
Qed.

(** C5, amended. On every graph, for every direct-reference map and every
    depth limit, the engine returns a result in which no identifier, as it
    is written, sits at two different levels, and in which no level above 2
    holds an identifier that is, as written, a key of the direct-reference
    map. *)
Theorem levels_disjoint_raw
    (data : graph_data) (direct_refs : list (string * details))
    (max_depth : Z) :
  ∃ r, find_indirect_references (load_graph data) direct_refs max_depth = Ok r
       ∧ (∀ k1 k2 x, at_level r k1 x → at_level r k2 x → k1 = k2)
       ∧ (∀ k x, at_level r k x → 2 < k → x ∉ PyDict.keys direct_refs).
Proof.
  destruct (find_indirect_references_inv data direct_refs max_depth)
    as (st & Hst & Hinv).
  eexists. split_and!; [done| |].
  - apply (inv_disjoint _ _ _ Hinv).
  - apply (inv_seeds _ _ _ Hinv).
Qed.

Lemma levels_disjoint_raw_witness :
  ∃ r, find_indirect_references (load_graph Scenario.respelled)
         [("S"%string, in_graph "s.pdf"
                         (mkNode "s.pdf" "s.pdf" (Some "S"%string)
                            (Some ["AB"%string]) 1))] 5 = Ok r
       ∧ (∀ k1 k2 x, at_level r k1 x → at_level r k2 x → k1 = k2)
       ∧ (∀ k x, at_level r k x → 2 < k → x ∉ ["S"%string]).
Proof.
  exact (levels_disjoint_raw Scenario.respelled
           [("S"%string, in_graph "s.pdf"
                           (mkNode "s.pdf" "s.pdf" (Some "S"%string)
                              (Some ["AB"%string]) 1))] 5).
Defined.

(** ** Cycles (C7) *)

(** C7, refuted at scenario A. Seeded from [X]'s direct reference [Y] with
    [max_depth = 5], the result holds [X] at level 2: the engine is handed
    the direct references only, so the document under analysis comes back
    as its own indirect reference. *)
Lemma cycle_rediscovers_origin :
  ∃ r, find_indirect_references (load_graph Scenario.cycle)
         Scenario.cycle_direct 5 = Ok r
       ∧ ¬ (∀ k x, at_level r k x → x ≠ "X"%string ∧ x ≠ "Y"%string).
Proof.
  eexists. split; [vm_compute; reflexivity|].
  intros H. destruct (H 2 "X"%string); [|done].
  exists {[ "X"%string ]}.
  split; [vm_compute; reflexivity | by apply elem_of_singleton].
Qed.

(** C7, amended. On every graph, cyclic or not, and for every depth limit
    the engine returns: the loop ends and nothing is raised. In the
    two-document cycle, seeded from [X]'s direct reference [Y] with
    [max_depth = 5], the result is the single level 2 holding [X]: [Y] is at
    no level, and [X] is met once. *)
Theorem traversal_terminates :
  (∀ (data : graph_data) (direct_refs : list (string * details))
     (max_depth : Z),
     ∃ r, find_indirect_references (load_graph data) direct_refs max_depth
          = Ok r)
  ∧ find_direct_references Root.normalize (load_graph Scenario.cycle)
      ["Y"%string] = Ok Scenario.cycle_direct
  ∧ find_indirect_references (load_graph Scenario.cycle)
      Scenario.cycle_direct 5
    = Ok {[ 2 := {[ "X"%string ]} ]}.
Proof.
  split_and!.
  - intros data direct_refs max_depth.
    destruct (find_indirect_references_inv data direct_refs max_depth)
      as (st & Hst & _).
    by eexists.
  - vm_compute. reflexivity.
  - vm_compute. reflexivity.
Qed.

(** ** The graph builder (C6) *)

Section builder_facts.
Implicit Types (g : CircularKnowledgeGraph) (refs : list string).

Lemma edge_targets_add_circular g filename circular_no refs node_id :
  edge_targets (add_circular g filename circular_no refs) node_id
  = edge_targets g node_id ++ (if decide (filename = node_id) then refs else []).
Proof.
  unfold edge_targets, add_circular. simpl.
  rewrite filter_app, map_app. f_equal.
  induction refs as [|r refs IH]; simpl.
  - by destruct (decide _).
  - destruct (decide (filename = node_id)) as [Heq|Hne].
    + rewrite filter_cons_True by done. simpl. by rewrite IH.
    + rewrite filter_cons_False by done. done.
Qed.

Lemma edge_targets_no_source g node_id :
  (∀ e, e ∈ kg_edges g → e_source e ≠ node_id) → edge_targets g node_id = [].
Proof.
  unfold edge_targets. induction (kg_edges g) as [|e es IH]; intros H; [done|].
  rewrite filter_cons_False by (apply H; left).
  apply IH. intros e' He'. apply H. by right.
Qed.

Lemma add_circular_edges_from_nodes g filename circular_no refs :
  edges_from_nodes g →
  edges_from_nodes (add_circular g filename circular_no refs).
Proof.
  intros H e. unfold add_circular. simpl.
  rewrite elem_of_app, elem_of_keys_set. intros [He|He].
  - right. by apply H.
  - left. apply list_elem_of_In, in_map_iff in He as (r & <- & _). done.
Qed.

(** A document whose id is new keeps the invariant, with the edges in the
    order of the references. *)
Lemma add_circular_new_id g filename circular_no refs :
  edges_from_nodes g →
  filename ∉ PyDict.keys (kg_nodes g) →
  (∀ node_id nd, PyDict.get (kg_nodes g) node_id = Some nd →
                 edge_targets g node_id = nd_references nd) →
  ∀ node_id nd,
    PyDict.get (kg_nodes (add_circular g filename circular_no refs)) node_id
    = Some nd →
    edge_targets (add_circular g filename circular_no refs) node_id
    = nd_references nd.
Proof.
  intros Hsrc Hnew Hinv node_id nd.
  rewrite edge_targets_add_circular.
  destruct (decide (filename = node_id)) as [<-|Hne].
  - unfold add_circular at 1. simpl. rewrite get_set_eq. intros [= <-]. simpl.
    rewrite edge_targets_no_source; [done|].
    intros e He Heq. apply Hnew. rewrite <- Heq. by apply Hsrc.
  - unfold add_circular at 1. simpl. rewrite get_set_ne by done.
    intros Hget. rewrite app_nil_r. by apply Hinv.
Qed.

Lemma add_circulars_distinct_ids_from g
    (docs : list (string * string * list string)) :
  edges_from_nodes g →
  (∀ node_id nd, PyDict.get (kg_nodes g) node_id = Some nd →
                 edge_targets g node_id = nd_references nd) →
  NoDup (map (λ doc, doc.1.1) docs) →
  (∀ doc, doc ∈ docs → doc.1.1 ∉ PyDict.keys (kg_nodes g)) →
  ∀ node_id nd,
    PyDict.get (kg_nodes (add_circulars g docs)) node_id = Some nd →
    edge_targets (add_circulars g docs) node_id = nd_references nd.
Proof.
  revert g. induction docs as [|[[f c] refs] docs IH];
    intros g Hsrc Hinv Hnd Hfresh; [exact Hinv|].
  apply NoDup_cons in Hnd as [Hf Hnd].
  unfold add_circulars. simpl. apply IH.
  - by apply add_circular_edges_from_nodes.
  - apply add_circular_new_id; [done| |done].
    apply (Hfresh (f, c, refs)). left.
  - done.
  - intros doc Hdoc. unfold add_circular. simpl.
    rewrite elem_of_keys_set. intros [Heq|Hin].
    + apply Hf. rewrite <- Heq. apply list_elem_of_In, in_map_iff.
      exists doc. split; [done|]. by apply list_elem_of_In.
    + apply (Hfresh doc); [by right|done].
Qed.

(** Built from documents with pairwise different file names, the graph
    satisfies the invariant. *)
Lemma add_circulars_distinct_ids
    (docs : list (string * string * list string)) :
  NoDup (map (λ doc, doc.1.1) docs) →
  edges_match_nodes (add_circulars new_graph docs).
Proof.
  intros Hnd node_id nd Hget.
  rewrite (add_circulars_distinct_ids_from new_graph docs) with (nd := nd);
    try done.
  - intros e He. by apply elem_of_nil in He.
  - intros doc _ Hin. by apply elem_of_nil in Hin.
Qed.

End builder_facts.

(** C6, at the failing input. The claim: after any sequence of
    [add_circular] calls, also with an id used twice, every stored node has
    exactly one edge per entry of its references. Adding [a.pdf] (circular
    [C/1], references [R/1]) twice leaves one node with the one reference
    [R/1] and two edges from it to [R/1]: the node is overwritten and the
    edges of the first call stay. Adding it again with no reference leaves a
    node without references and the edge of the first call. *)
Theorem readded_document_keeps_old_edges :
  PyDict.keys (kg_nodes Scenario.readded) = ["a.pdf"%string]
  ∧ (nd_references <$> PyDict.get (kg_nodes Scenario.readded) "a.pdf")
    = Some ["R/1"%string]
  ∧ edge_targets Scenario.readded "a.pdf" = ["R/1"%string; "R/1"%string]
  ∧ edges_match_nodes_b Scenario.readded = false
  ∧ ¬ edges_match_nodes Scenario.readded
  ∧ (nd_references <$> PyDict.get (kg_nodes Scenario.shrunk) "a.pdf")
    = Some []
  ∧ edge_targets Scenario.shrunk "a.pdf" = ["R/1"%string]
  ∧ edges_match_nodes_b Scenario.shrunk = false
  ∧ ¬ edges_match_nodes Scenario.shrunk.
Proof.
  split_and!.
  - vm_compute. reflexivity.
  - vm_compute. reflexivity.
  - vm_compute. reflexivity.
  - vm_compute. reflexivity.
  - intros H.
    specialize (H "a.pdf"%string
                  (mkNodeData "a.pdf" "C/1" ["R/1"%string] 1) eq_refl).
    apply Permutation_length in H. vm_compute in H. discriminate.
  - vm_compute. reflexivity.
  - vm_compute. reflexivity.
  - vm_compute. reflexivity.
  - intros H.
    specialize (H "a.pdf"%string (mkNodeData "a.pdf" "C/1" [] 0) eq_refl).
    apply Permutation_length in H. vm_compute in H. discriminate.
Qed.

(** * Further properties of the code *)

(** ** Substrings *)

Lemma string_app_cons (c : ascii) (a y : string) :
  (String c a ++ y)%string = String c (a ++ y).
Proof. reflexivity. Qed.

Lemma string_app_nil_l (y : string) : (EmptyString ++ y)%string = y.
Proof. reflexivity. Qed.

Lemma string_app_nil_r (a : string) : (a ++ EmptyString)%string = a.
Proof.
  induction a as [|c a IH]; [done|]. by rewrite string_app_cons, IH.
Qed.

Lemma starts_with_app (a y : string) : PyStr.starts_with a (a ++ y) = true.
Proof.
  induction a as [|c a IH]; [done|].
  rewrite string_app_cons. simpl. by rewrite Ascii.eqb_refl, IH.
Qed.

Lemma starts_with_split (a b : string) :
  PyStr.starts_with a b = true → ∃ y, b = (a ++ y)%string.
Proof.
  revert b. induction a as [|c a IH]; intros b; simpl.
  - intros _. by exists b.
  - destruct b as [|d b]; [done|].
    intros [Hc Hab]%andb_true_iff. apply Ascii.eqb_eq in Hc as ->.
    destruct (IH b Hab) as [y ->]. by exists y.
Qed.

Lemma contains_split (a b : string) :
  PyStr.contains a b = true ↔ ∃ x y, b = (x ++ a ++ y)%string.
Proof.
  split.
  - induction b as [|d b IH]; simpl.
    + rewrite orb_false_r. intros [y ->]%starts_with_split.
      by exists EmptyString, y.
    + intros [H|H]%orb_true_iff.
      * apply starts_with_split in H as [y ->]. by exists EmptyString, y.
      * destruct (IH H) as (x & y & ->). by exists (String d x), y.
  - intros (x & y & ->). induction x as [|d x IH].
    + rewrite string_app_nil_l.
      destruct (a ++ y)%string eqn:E; simpl;
        rewrite <- E, starts_with_app; done.
    + rewrite string_app_cons. simpl. by rewrite IH, orb_true_r.
Qed.

Lemma contains_refl (a : string) : PyStr.contains a a = true.
Proof.
  apply contains_split. exists EmptyString, EmptyString.
  by rewrite string_app_nil_l, string_app_nil_r.
Qed.

Lemma sfilter_app (p : ascii → bool) (x y : string) :
  PyStr.sfilter p (x ++ y) = (PyStr.sfilter p x ++ PyStr.sfilter p y)%string.
Proof.
  induction x as [|c x IH]; [done|]. rewrite string_app_cons. simpl.
  destruct (p c); by rewrite IH.
Qed.

Lemma smap_app (f : ascii → ascii) (x y : string) :
  PyStr.smap f (x ++ y) = (PyStr.smap f x ++ PyStr.smap f y)%string.
Proof.
  induction x as [|c x IH]; [done|]. rewrite string_app_cons. simpl.
  by rewrite IH.
Qed.

Lemma contains_sfilter (p : ascii → bool) (a b : string) :
  PyStr.contains a b = true →
  PyStr.contains (PyStr.sfilter p a) (PyStr.sfilter p b) = true.
Proof.
  rewrite !contains_split. intros (x & y & ->).
  exists (PyStr.sfilter p x), (PyStr.sfilter p y). by rewrite !sfilter_app.
Qed.

Lemma has_char_sfilter (p : ascii → bool) (c : ascii) (s : string) :
  PyStr.has_char c (PyStr.sfilter p s) = PyStr.has_char c s && p c.
Proof.
  induction s as [|d s IH]; simpl; [done|].
  destruct (p d) eqn:E; simpl.
  - destruct (Ascii.eqb_spec d c) as [Heq|Hne]; simpl; [|exact IH].
    subst. by rewrite E.
  - rewrite IH. destruct (Ascii.eqb_spec d c) as [Heq|Hne]; simpl; [|done].
    subst. by rewrite E, andb_false_r.
Qed.

Lemma has_char_smap (f : ascii → ascii) (c : ascii) (s : string) :
  PyStr.has_char c (PyStr.smap f s) = true →
  ∃ d, PyStr.has_char d s = true ∧ f d = c.
Proof.
  induction s as [|d s IH]; simpl; [done|].
  intros [H|H]%orb_true_iff.
  - apply Ascii.eqb_eq in H. exists d. by rewrite Ascii.eqb_refl.
  - destruct (IH H) as (d' & Hd' & <-). exists d'. by rewrite Hd', orb_true_r.
Qed.

Lemma sfilter_id (p : ascii → bool) (s : string) :
  (∀ c, PyStr.has_char c s = true → p c = true) → PyStr.sfilter p s = s.
Proof.
  induction s as [|d s IH]; simpl; [done|]. intros H.
  rewrite (H d) by (by rewrite Ascii.eqb_refl). f_equal. apply IH.
  intros c Hc. apply H. by rewrite Hc, orb_true_r.
Qed.

Lemma smap_id (f : ascii → ascii) (s : string) :
  (∀ c, PyStr.has_char c s = true → f c = c) → PyStr.smap f s = s.
Proof.
  induction s as [|d s IH]; simpl; [done|]. intros H.
  rewrite (H d) by (by rewrite Ascii.eqb_refl). f_equal. apply IH.
  intros c Hc. apply H. by rewrite Hc, orb_true_r.
Qed.

(** ** The comparison keys *)

Lemma upper_char_not_lower (c : ascii) :
  PyStr.is_lower (PyStr.upper_char c) = false.
Proof. destruct c as [[] [] [] [] [] [] [] []]; reflexivity. Qed.

Lemma upper_char_fixed (c : ascii) :
  PyStr.is_lower c = false → PyStr.upper_char c = c.
Proof. unfold PyStr.upper_char. by intros ->. Qed.

Lemma upper_char_space (c : ascii) :
  Ascii.eqb (PyStr.upper_char c) " " = Ascii.eqb c " ".
Proof. destruct c as [[] [] [] [] [] [] [] []]; reflexivity. Qed.

Lemma keep_AZ09_not_lower (c : ascii) :
  Scripts.keep_AZ09 c = true → PyStr.is_lower c = false.
Proof. destruct c as [[] [] [] [] [] [] [] []]; vm_compute; congruence. Qed.

Lemma keep_AZ09_not_space (c : ascii) :
  Scripts.keep_AZ09 c = true → Ascii.eqb c " " = false.
Proof. destruct c as [[] [] [] [] [] [] [] []]; vm_compute; congruence. Qed.

Lemma upper_remove_space (s : string) :
  PyStr.upper (PyStr.remove_char " " s) = PyStr.remove_char " " (PyStr.upper s).
Proof.
  unfold PyStr.upper, PyStr.remove_char.
  induction s as [|c s IH]; simpl; [done|].
  rewrite upper_char_space. destruct (Ascii.eqb c " "); simpl; by rewrite IH.
Qed.

Lemma sfilter_keep_remove_space (s : string) :
  PyStr.sfilter Scripts.keep_AZ09 (PyStr.remove_char " " s)
  = PyStr.sfilter Scripts.keep_AZ09 s.
Proof.
  unfold PyStr.remove_char. induction s as [|c s IH]; simpl; [done|].
  destruct (Scripts.keep_AZ09 c) eqn:E.
  - rewrite (keep_AZ09_not_space c E). simpl. by rewrite E, IH.
  - destruct (Ascii.eqb c " "); simpl; by rewrite ?E, IH.
Qed.

Lemma scripts_normalize_alt (s : string) :
  Scripts.normalize s = PyStr.sfilter Scripts.keep_AZ09 (PyStr.upper s).
Proof. by destruct s. Qed.

(** The key of [src/scripts/] is the key of the top-level scripts with the
    characters other than A-Z and 0-9 taken out. *)
Lemma scripts_normalize_root (s : string) :
  Scripts.normalize s = PyStr.sfilter Scripts.keep_AZ09 (Root.normalize s).
Proof.
  rewrite scripts_normalize_alt. unfold Root.normalize.
  by rewrite upper_remove_space, sfilter_keep_remove_space.
Qed.

Lemma filter_impl_sublist {A : Type} (P Q : A → Prop)
    `{!∀ x, Decision (P x)} `{!∀ x, Decision (Q x)} (l : list A) :
  (∀ x, P x → Q x) → filter P l `sublist_of` filter Q l.
Proof.
  intros HPQ. induction l as [|x l IH]; [done|].
  rewrite !filter_cons. destruct (decide (P x)) as [HP|HP].
  - rewrite decide_True by auto. by apply sublist_skip.
  - destruct (decide (Q x)); [by apply sublist_cons|done].
Qed.

(** X1. The key that [src/scripts/] compares holds upper-case letters and
    digits only, and computing the key of a key changes nothing. *)
Theorem scripts_normalize_canonical (s : string) :
  (∀ c, PyStr.has_char c (Scripts.normalize s) = true →
        PyStr.is_upper c || PyStr.is_digit c = true)
  ∧ Scripts.normalize (Scripts.normalize s) = Scripts.normalize s.
Proof.
  assert (∀ c, PyStr.has_char c (Scripts.normalize s) = true →
               Scripts.keep_AZ09 c = true) as Hkeep.
  { intros c. rewrite scripts_normalize_alt, has_char_sfilter.
    by intros [_ ?]%andb_true_iff. }
  split; [exact Hkeep|].
  rewrite (scripts_normalize_alt (Scripts.normalize s)).
  unfold PyStr.upper. rewrite smap_id.
  - by apply sfilter_id.
  - intros c Hc. apply upper_char_fixed, keep_AZ09_not_lower, Hkeep, Hc.
Qed.

(** X2. The key that the top-level scripts compare holds no space and no
    lower-case letter, and computing the key of a key changes nothing. *)
Theorem root_normalize_canonical (s : string) :
  PyStr.has_char " " (Root.normalize s) = false
  ∧ (∀ c, PyStr.has_char c (Root.normalize s) = true →
          PyStr.is_lower c = false)
  ∧ Root.normalize (Root.normalize s) = Root.normalize s.
Proof.
  assert (PyStr.has_char " " (Root.normalize s) = false) as Hsp.
  { unfold Root.normalize. rewrite upper_remove_space.
    unfold PyStr.remove_char. rewrite has_char_sfilter.
    by rewrite andb_false_r. }
  assert (∀ c, PyStr.has_char c (Root.normalize s) = true →
               PyStr.is_lower c = false) as Hlow.
  { intros c Hc. unfold Root.normalize, PyStr.upper in Hc.
    apply has_char_smap in Hc as (d & _ & <-). apply upper_char_not_lower. }
  split_and!; [done..|].
  unfold Root.normalize at 1. unfold PyStr.remove_char.
  rewrite sfilter_id.
  - unfold PyStr.upper. apply smap_id. intros c Hc.
    by apply upper_char_fixed, Hlow.
  - intros c Hc. destruct (Ascii.eqb_spec c " ") as [->|]; [|done].
    congruence.
Qed.

(** X3. Every node that the fuzzy match of the top-level analyzer returns
    for a reference is returned by the fuzzy match of [src/scripts/] as
    well, and in the same order. *)
Theorem root_fuzzy_matches_in_scripts (self : analyzer) (ref : string) :
  _fuzzy_match_reference Root.normalize self ref
    `sublist_of` _fuzzy_match_reference Scripts.normalize self ref.
Proof.
  unfold _fuzzy_match_reference.
  rewrite (foldl_collect
             (λ kv : string * node,
                PyStr.contains (Root.normalize ref)
                               (Root.normalize (get_circular_no kv.2))
                || PyStr.contains (Root.normalize (get_circular_no kv.2))
                                  (Root.normalize ref)) fst).
  rewrite (foldl_collect
             (λ kv : string * node,
                PyStr.contains (Scripts.normalize ref)
                               (Scripts.normalize (get_circular_no kv.2))
                || PyStr.contains (Scripts.normalize (get_circular_no kv.2))
                                  (Scripts.normalize ref)) fst).
  simpl. apply fmap_sublist, filter_impl_sublist.
  intros kv E. rewrite !scripts_normalize_root.
  apply orb_true_iff in E as [E|E];
    apply (contains_sfilter Scripts.keep_AZ09) in E; rewrite E;
    by rewrite ?orb_true_r.
Qed.

(** ** The self-reference filters *)

Lemma filter_all {A : Type} (P : A → Prop) `{!∀ x, Decision (P x)}
    (l : list A) :
  (∀ x, x ∈ l → P x) → filter P l = l.
Proof.
  induction l as [|x l IH]; intros Hall; [done|].
  rewrite filter_cons_True by (apply Hall; left). f_equal.
  apply IH. intros y Hy. apply Hall. by right.
Qed.

Lemma filter_none {A : Type} (P : A → Prop) `{!∀ x, Decision (P x)}
    (l : list A) :
  (∀ x, x ∈ l → ¬ P x) → filter P l = [].
Proof.
  induction l as [|x l IH]; intros Hall; [done|].
  rewrite filter_cons_False by (apply Hall; left).
  apply IH. intros y Hy. apply Hall. by right.
Qed.

Lemma string_app_assoc (a b c : string) :
  ((a ++ b) ++ c)%string = (a ++ (b ++ c))%string.
Proof.
  induction a as [|d a IH]; [done|]. by rewrite !string_app_cons, IH.
Qed.

Lemma contains_trans (a b c : string) :
  PyStr.contains a b = true → PyStr.contains b c = true →
  PyStr.contains a c = true.
Proof.
  rewrite !contains_split. intros (x & y & ->) (x' & y' & ->).
  exists (x' ++ x)%string, (y ++ y')%string.
  by rewrite !string_app_assoc.
Qed.

Lemma split_head_prefix (sep : ascii) (s : string) :
  ∃ y, s = (PyStr.split_head sep s ++ y)%string.
Proof.
  induction s as [|c s [y IH]]; simpl.
  - by exists EmptyString.
  - destruct (Ascii.eqb c sep).
    + by exists (String c s).
    + exists y. rewrite string_app_cons. by rewrite <- IH.
Qed.

Lemma lstrip_suffix (s : string) : ∃ x, s = (x ++ PyStr.lstrip s)%string.
Proof.
  induction s as [|c s [x IH]]; simpl.
  - by exists EmptyString.
  - destruct (PyStr.is_space c).
    + exists (String c x). rewrite string_app_cons. by rewrite <- IH.
    + by exists EmptyString.
Qed.

Lemma rstrip_prefix (s : string) : ∃ y, s = (PyStr.rstrip s ++ y)%string.
Proof.
  induction s as [|c s [y IH]]; simpl.
  - by exists EmptyString.
  - destruct (PyStr.rstrip s) as [|d r] eqn:E.
    + rewrite string_app_nil_l in IH. subst y.
      destruct (PyStr.is_space c).
      * by exists (String c s).
      * by exists s.
    + exists y. rewrite string_app_cons. by rewrite <- IH.
Qed.

Lemma contains_prefix (a y : string) : PyStr.contains a (a ++ y) = true.
Proof.
  apply contains_split. by exists EmptyString, y.
Qed.

Lemma contains_suffix (x a : string) : PyStr.contains a (x ++ a) = true.
Proof.
  apply contains_split. exists x, EmptyString. by rewrite string_app_nil_r.
Qed.

Lemma contains_strip (s : string) : PyStr.contains (PyStr.strip s) s = true.
Proof.
  unfold PyStr.strip.
  destruct (lstrip_suffix s) as [x Hx].
  destruct (rstrip_prefix (PyStr.lstrip s)) as [y Hy].
  apply contains_trans with (PyStr.lstrip s).
  - rewrite Hy at 2. apply contains_prefix.
  - rewrite Hx at 2. apply contains_suffix.
Qed.

Lemma contains_split_head (sep : ascii) (s : string) :
  PyStr.contains (PyStr.split_head sep s) s = true.
Proof.
  destruct (split_head_prefix sep s) as [y Hy].
  rewrite Hy at 2. apply contains_prefix.
Qed.

(** The short form that the filter compares occurs in the circular number
    it was cut from. *)
Lemma current_circ_short_contained (circular_number : string) :
  PyStr.contains (Root.current_circ_short circular_number) circular_number
  = true.
Proof.
  unfold Root.current_circ_short.
  destruct (PyStr.truthy circular_number); [|apply contains_empty].
  eapply contains_trans; [apply contains_strip|].
  eapply contains_trans; apply contains_split_head.
Qed.

(** X4. When the short form of the circular number is empty (the number is
    empty, or nothing but white space precedes its first bracket or dash),
    the filter of [extract_circular_references] drops nothing. *)
Theorem root_filter_empty_short_keeps_all
    (circular_number : string) (references : list string) :
  Root.current_circ_short circular_number = EmptyString →
  Root.filter_self_references circular_number references = references.
Proof.
  intros Hshort. unfold Root.filter_self_references.
  apply filter_all. intros ref _.
  unfold Root.is_self_reference. by rewrite Hshort.
Qed.

Lemma root_filter_empty_short_keeps_all_witness :
  Root.filter_self_references "-2024/15"
    ["SEBI/HO/1"; "CIR/2024/15"]%string
  = ["SEBI/HO/1"; "CIR/2024/15"]%string.
Proof.
  apply (root_filter_empty_short_keeps_all "-2024/15"). reflexivity.
Defined.

(** The short form that the filter of [main] compares occurs in the
    circular number it was cut from. *)
Lemma main_current_circ_short_contained (current_circular : string) :
  PyStr.contains (Root.main_current_circ_short current_circular)
                 current_circular = true.
Proof.
  unfold Root.main_current_circ_short.
  set (short := if PyStr.has_char "(" current_circular
                then PyStr.split_head "(" current_circular
                else current_circular).
  assert (PyStr.contains short current_circular = true) as Hshort.
  { unfold short. destruct (PyStr.has_char "(" current_circular);
      [apply contains_split_head|apply contains_refl]. }
  destruct (PyStr.has_char "-" short); [|done].
  eapply contains_trans; [apply contains_strip|].
  eapply contains_trans; [apply contains_split_head|done].
Qed.

(** X5. The filter that [main] of the extractor writes: no reference that
    survives it contains the current circular number. The filter has no
    test for an empty short form, and this holds for every current circular
    number. *)
Theorem main_filter_drops_own_number
    (current_circular : string) (all_references : list string)
    (ref : string) :
  ref ∈ Root.main_filter_self_references current_circular all_references →
  ref ∈ all_references ∧ PyStr.contains current_circular ref = false.
Proof.
  intros [Hself Hin]%list_elem_of_filter. split; [done|].
  destruct (PyStr.contains current_circular ref) eqn:E; [|done].
  unfold Root.main_is_self_reference in Hself.
  rewrite (contains_trans _ _ _
             (main_current_circ_short_contained current_circular) E)
    in Hself.
  done.
Qed.

Lemma main_filter_drops_own_number_witness :
  "CIR/2024/15"%string
    ∈ ["SEBI/HO/ABC/2024/5 dated"; "CIR/2024/15"]%string
  ∧ PyStr.contains "SEBI/HO/ABC/2024/5" "CIR/2024/15" = false.
Proof.
  apply (main_filter_drops_own_number "SEBI/HO/ABC/2024/5"
           ["SEBI/HO/ABC/2024/5 dated"; "CIR/2024/15"]%string).
  vm_compute. apply list_elem_of_singleton. reflexivity.
Defined.

(** X6. With a non-empty short form, no reference that survives the filter
    of [extract_circular_references] contains the circular number of the
    document: the document's own number, and any text around it, is
    dropped. *)
Theorem root_filter_drops_own_number
    (circular_number : string) (references : list string) (ref : string) :
  Root.current_circ_short circular_number ≠ EmptyString →
  ref ∈ Root.filter_self_references circular_number references →
  PyStr.contains circular_number ref = false.
Proof.
  intros Hshort [Hself _]%list_elem_of_filter.
  destruct (PyStr.contains circular_number ref) eqn:E; [|done].
  unfold Root.is_self_reference in Hself.
  apply truthy_true in Hshort. rewrite Hshort in Hself.
  rewrite (contains_trans _ _ _ (current_circ_short_contained circular_number) E)
    in Hself.
  done.
Qed.

Lemma root_filter_drops_own_number_witness :
  PyStr.contains "SEBI/HO/ABC/2024/5" "CIR/2024/15" = false.
Proof.
  apply (root_filter_drops_own_number "SEBI/HO/ABC/2024/5"
           ["see SEBI/HO/ABC/2024/5"; "CIR/2024/15"]%string).
  - vm_compute. discriminate.
  - vm_compute. apply list_elem_of_singleton. reflexivity.
Defined.

(** ** The database search *)

(** X7. [CircularDatabase.search] returns circulars of the database, in
    the order of the database, and among them every circular whose number
    equals the reference once spaces are removed and letters are
    upper-cased. *)
Theorem search_sublist_complete
    (circulars : list circular) (reference : string) :
  search circulars reference `sublist_of` circulars
  ∧ ∀ c, c ∈ circulars →
      Root.normalize (c_circular_no c) = Root.normalize_reference reference →
      c ∈ search circulars reference.
Proof.
  split.
  - unfold search.
    rewrite (foldl_collect
               (λ c, PyStr.contains (Root.normalize_reference reference)
                                    (Root.normalize (c_circular_no c))
                     || PyStr.contains (Root.normalize (c_circular_no c))
                                       (Root.normalize_reference reference))
               id).
    simpl. rewrite list_fmap_id. apply sublist_filter.
  - intros c Hc Heq. apply search_elem. split; [done|].
    by rewrite Heq, contains_refl.
Qed.

(** ** Matching references with the database *)

Lemma match_references_from (circulars : list circular)
    (references : list string) (acc : list matched_circular * list string) :
  foldl (λ acc ref,
           let matches := search circulars ref in
           match matches with
           | [] => (acc.1, acc.2 ++ [ref])
           | _ =>
               (acc.1 ++ map (λ m, {| m_reference := ref;
                                      m_title := c_title m;
                                      m_circular_no := c_circular_no m |})
                             matches,
                acc.2)
           end) acc references
  = (acc.1 ++ flat_map (λ ref, map (λ m, {| m_reference := ref;
                                            m_title := c_title m;
                                            m_circular_no := c_circular_no m |})
                                   (search circulars ref)) references,
     acc.2 ++ filter (λ ref, search circulars ref = []) references).
Proof.
  revert acc. induction references as [|ref refs IH]; intros [ms us]; simpl.
  - by rewrite !app_nil_r.
  - rewrite IH. destruct (search circulars ref) as [|c cs] eqn:E; simpl.
    + rewrite filter_cons_True by done. by rewrite <- app_assoc.
    + rewrite filter_cons_False by (by rewrite E).
      by rewrite <- app_assoc.
Qed.

(** X8. The matching loop of the extractor's [main] reports every
    reference: a reference is listed as unmatched exactly when the search
    finds nothing for it, the matched list holds one entry for every
    circular that the search finds for a reference, and so the two lists
    together are at least as long as the list of references. *)
Theorem match_references_reports_all
    (circulars : list circular) (references : list string) :
  (∀ ref, ref ∈ (match_references circulars references).2 ↔
          ref ∈ references ∧ search circulars ref = [])
  ∧ (∀ m, m ∈ (match_references circulars references).1 ↔
          ∃ c, m_reference m ∈ references
               ∧ c ∈ search circulars (m_reference m)
               ∧ m_title m = c_title c ∧ m_circular_no m = c_circular_no c)
  ∧ (length references
     ≤ length (match_references circulars references).1
       + length (match_references circulars references).2)%nat.
Proof.
  unfold match_references. rewrite match_references_from. simpl.
  split_and!.
  - intros ref. rewrite list_elem_of_filter. tauto.
  - intros m. rewrite list_elem_of_In, in_flat_map. split.
    + intros (ref & Href & Hm). apply in_map_iff in Hm as (c & <- & Hc).
      exists c. simpl. by rewrite <- !list_elem_of_In in *.
    + intros (c & Href & Hc & Ht & Hn). exists (m_reference m).
      rewrite <- list_elem_of_In. split; [done|].
      apply in_map_iff. exists c. rewrite <- list_elem_of_In. split; [|done].
      destruct m; simpl in *; congruence.
  - induction references as [|ref refs IH]; simpl; [done|].
    rewrite length_app, length_map.
    destruct (search circulars ref) as [|c cs] eqn:E; simpl.
    + rewrite filter_cons_True by done. simpl. lia.
    + rewrite filter_cons_False by (by rewrite E). lia.
Qed.

(** ** The indexes of a loaded graph *)

Lemma load_nodes_snoc (ns : list node) (n : node) :
  load_nodes (ns ++ [n]) = PyDict.set (load_nodes ns) (n_id n) n.
Proof. unfold load_nodes. by rewrite foldl_app. Qed.

Lemma load_nodes_get (ns : list node) (node_id : string) :
  PyDict.get (load_nodes ns) node_id
  = last (filter (λ n, n_id n = node_id) ns).
Proof.
  induction ns as [|n ns IH] using rev_ind; [done|].
  rewrite load_nodes_snoc, filter_app.
  destruct (decide (n_id n = node_id)) as [<-|Hne].
  - rewrite get_set_eq, filter_cons_True by done.
    by rewrite filter_nil, last_snoc.
  - rewrite get_set_ne by done.
    rewrite filter_cons_False by done. by rewrite filter_nil, app_nil_r.
Qed.

(** X9. [nodes] holds one entry per id, and where several nodes of the
    file carry one id it holds the last of them; it holds nothing for an id
    that no node carries. *)
Theorem load_nodes_last_wins (data : graph_data) (node_id : string) :
  NoDup (PyDict.keys (nodes (load_graph data)))
  ∧ PyDict.get (nodes (load_graph data)) node_id
    = last (filter (λ n, n_id n = node_id) (data_nodes data)).
Proof.
  split.
  - apply load_nodes_NoDup.
  - apply load_nodes_get.
Qed.

Lemma load_reference_map_snoc (es : list edge) (e : edge) :
  load_reference_map (es ++ [e])
  = PyDict.set (load_reference_map es) (e_target_reference e)
      (default [] (PyDict.get (load_reference_map es) (e_target_reference e))
       ++ [e_source e]).
Proof. unfold load_reference_map. by rewrite foldl_app. Qed.

Lemma load_reference_map_get (es : list edge) (target : string) :
  PyDict.get (load_reference_map es) target
  = match sources_of es target with
    | [] => None
    | sources => Some sources
    end.
Proof.
  unfold sources_of. induction es as [|e es IH] using rev_ind; [done|].
  rewrite load_reference_map_snoc, filter_app, fmap_app.
  destruct (decide (e_target_reference e = target)) as [<-|Hne].
  - rewrite get_set_eq, filter_cons_True by done. rewrite filter_nil. csimpl.
    rewrite IH.
    destruct (e_source <$> filter (λ e0, e_target_reference e0
                                         = e_target_reference e) es);
      reflexivity.
  - rewrite get_set_ne by done.
    rewrite filter_cons_False by done. rewrite filter_nil. csimpl.
    by rewrite app_nil_r.
Qed.

Lemma sources_of_nil (es : list edge) (target : string) :
  sources_of es target = [] ↔
  ¬ ∃ e, e ∈ es ∧ e_target_reference e = target.
Proof.
  unfold sources_of. split.
  - intros Hnil (e & He & Ht).
    assert (e_source e ∈ e_source <$> filter (λ e, e_target_reference e = target) es)
      as Hin.
    { apply list_elem_of_fmap. exists e. split; [done|].
      by apply list_elem_of_filter. }
    rewrite Hnil in Hin. by apply elem_of_nil in Hin.
  - intros Hno.
    rewrite (filter_none (λ e, e_target_reference e = target) es); [done|].
    intros e He Ht. apply Hno. by exists e.
Qed.

Lemma load_circular_to_node_keep (c : string) (nds : list (string * node)) :
  (∀ kv, kv ∈ nds → get_circular_no kv.2 ≠ c) →
  ∀ m, PyDict.get
         (foldl (λ m kv,
                   let circ_no := get_circular_no kv.2 in
                   if PyStr.truthy circ_no
                   then PyDict.set m circ_no kv.1 else m) m nds) c
       = PyDict.get m c.
Proof.
  induction nds as [|kv nds IH]; intros Hne m; [done|].
  simpl. rewrite IH by (intros kv' Hkv'; apply Hne; by right).
  destruct (PyStr.truthy (get_circular_no kv.2)); [|done].
  apply get_set_ne, Hne. left.
Qed.

(** X10. Where several nodes carry one circular number, [circular_to_node]
    files the number under the node that comes last in [nodes]. *)
Theorem circular_to_node_last_wins
    (data : graph_data) (before after : list (string * node))
    (node_id : string) (n : node) :
  nodes (load_graph data) = before ++ (node_id, n) :: after →
  get_circular_no n ≠ EmptyString →
  (∀ kv, kv ∈ after → get_circular_no kv.2 ≠ get_circular_no n) →
  PyDict.get (circular_to_node (load_graph data)) (get_circular_no n)
  = Some node_id.
Proof.
  simpl. intros -> Hne Hafter. unfold load_circular_to_node.
  rewrite foldl_app. simpl.
  rewrite load_circular_to_node_keep by done.
  apply truthy_true in Hne. rewrite Hne. apply get_set_eq.
Qed.

Lemma circular_to_node_last_wins_witness :
  PyDict.get
    (circular_to_node
       (load_graph
          {| data_nodes :=
               [mkNode "a.pdf" "a.pdf" (Some "C/1"%string) (Some []) 0;
                mkNode "b.pdf" "b.pdf" (Some "C/1"%string) (Some []) 0];
             data_edges := [] |}))
    "C/1"
  = Some "b.pdf"%string.
Proof.
  apply (circular_to_node_last_wins
           {| data_nodes :=
                [mkNode "a.pdf" "a.pdf" (Some "C/1"%string) (Some []) 0;
                 mkNode "b.pdf" "b.pdf" (Some "C/1"%string) (Some []) 0];
              data_edges := [] |}
           [("a.pdf"%string,
             mkNode "a.pdf" "a.pdf" (Some "C/1"%string) (Some []) 0)]
           []
           "b.pdf"
           (mkNode "b.pdf" "b.pdf" (Some "C/1"%string) (Some []) 0)).
  - reflexivity.
  - discriminate.
  - intros kv Hkv. by apply elem_of_nil in Hkv.
Defined.

(** ** The classification of a candidate *)

Lemma circular_to_node_is_Some (data : graph_data) (ref : string) :
  is_Some (PyDict.get (circular_to_node (load_graph data)) ref)
  ↔ is_circular_no (load_graph data) ref.
Proof.
  unfold is_circular_no. simpl. split.
  - intros [node_id Hget].
    apply load_circular_to_node_sound in Hget as (Hne & n & Hn & Hc).
    split; [done|]. by exists node_id, n.
  - intros (Hne & node_id & n & Hn & <-).
    by apply (load_circular_to_node_complete _ node_id).
Qed.

Lemma reference_map_is_Some (data : graph_data) (ref : string) :
  is_Some (PyDict.get (reference_map (load_graph data)) ref)
  ↔ is_edge_target (load_graph data) ref.
Proof.
  unfold is_edge_target. simpl. rewrite load_reference_map_get.
  destruct (sources_of (data_edges data) ref) as [|s l] eqn:E.
  - apply sources_of_nil in E. split; [by intros [? ?]|done].
  - split; [intros _|by eexists].
    assert (s ∈ sources_of (data_edges data) ref) as Hs by (rewrite E; left).
    unfold sources_of in Hs. apply list_elem_of_fmap in Hs as (e & _ & He).
    apply list_elem_of_filter in He as [Ht He]. by exists e.
Qed.

(** X11. [reference_map] has a key for a string exactly when some edge
    points to it, and the value is then the list of the sources of those
    edges, in the order of the edge list and with repetitions. *)
Theorem reference_map_sources (data : graph_data) (target : string) :
  PyDict.get (reference_map (load_graph data)) target
  = match sources_of (data_edges data) target with
    | [] => None
    | sources => Some sources
    end
  ∧ (is_Some (PyDict.get (reference_map (load_graph data)) target)
     ↔ ∃ e, e ∈ data_edges data ∧ e_target_reference e = target).
Proof.
  split.
  - apply load_reference_map_get.
  - apply reference_map_is_Some.
Qed.

Lemma fuzzy_match_nonempty (norm : string → string) (self : analyzer)
    (ref : string) :
  _fuzzy_match_reference norm self ref ≠ [] ↔ is_fuzzy norm self ref.
Proof.
  unfold is_fuzzy. split.
  - destruct (_fuzzy_match_reference norm self ref) as [|node_id l] eqn:E;
      [done|]. intros _.
    assert (node_id ∈ _fuzzy_match_reference norm self ref) as Hin
      by (rewrite E; left).
    apply fuzzy_match_elem in Hin as (n & Hn & Hc). by exists node_id, n.
  - intros (node_id & n & Hn & Hc) Hnil.
    assert (node_id ∈ _fuzzy_match_reference norm self ref) as Hin
      by (apply fuzzy_match_elem; by exists n).
    rewrite Hnil in Hin. by apply elem_of_nil in Hin.
Qed.

(** X12. How [find_direct_references] classifies a candidate on a loaded
    graph. The entry is an exact hit exactly for a node id; an alias hit
    exactly for a non-empty string that is no node id and is, as written,
    the circular number of a node; an external reference exactly for a
    string that is neither and that some edge points to; a fuzzy match
    exactly for a string that is none of these and whose key contains, or
    is contained in, the key of some node's circular number; and unresolved
    exactly for the rest. Nothing is raised. *)
Theorem resolve_one_classification
    (norm : string → string) (data : graph_data) (ref : string) :
  ∃ d, resolve_one norm (load_graph data) ref = Ok d
    ∧ (outcome_of ref d = Some ExactNode ↔ is_node_id (load_graph data) ref)
    ∧ (outcome_of ref d = Some AliasNode ↔
         ¬ is_node_id (load_graph data) ref
         ∧ is_circular_no (load_graph data) ref)
    ∧ (outcome_of ref d = Some ExternallyReferenced ↔
         ¬ is_node_id (load_graph data) ref
         ∧ ¬ is_circular_no (load_graph data) ref
         ∧ is_edge_target (load_graph data) ref)
    ∧ (outcome_of ref d = Some FuzzyMatch ↔
         ¬ is_node_id (load_graph data) ref
         ∧ ¬ is_circular_no (load_graph data) ref
         ∧ ¬ is_edge_target (load_graph data) ref
         ∧ is_fuzzy norm (load_graph data) ref)
    ∧ (outcome_of ref d = Some Unresolved ↔
         ¬ is_node_id (load_graph data) ref
         ∧ ¬ is_circular_no (load_graph data) ref
         ∧ ¬ is_edge_target (load_graph data) ref
         ∧ ¬ is_fuzzy norm (load_graph data) ref).
Proof.
  pose proof (load_graph_wf data) as Hwf.
  pose proof (get_is_Some_keys (nodes (load_graph data)) ref) as Hnode.
  pose proof (circular_to_node_is_Some data ref) as Hcirc.
  pose proof (reference_map_is_Some data ref) as Hedge.
  pose proof (fuzzy_match_nonempty norm (load_graph data) ref) as Hfuzzy.
  fold (is_node_id (load_graph data) ref) in Hnode.
  unfold resolve_one.
  destruct (PyDict.get (nodes (load_graph data)) ref) as [n|] eqn:En.
  { exists (in_graph ref n). split; [done|].
    assert (outcome_of ref (in_graph ref n) = Some ExactNode) as ->.
    { unfold outcome_of. simpl. by rewrite String.eqb_refl. }
    assert (is_node_id (load_graph data) ref) by (apply Hnode; by eexists).
    split_and!; split; try done; try tauto. }
  assert (¬ is_node_id (load_graph data) ref) as Hno.
  { rewrite <- Hnode. by intros [? ?]. }
  destruct (PyDict.get (circular_to_node (load_graph data)) ref)
    as [node_id|] eqn:Ec.
  { destruct (Hwf ref node_id Ec) as (_ & n & Hn & _).
    unfold subscript. rewrite Hn. exists (in_graph node_id n).
    split; [done|].
    assert (outcome_of ref (in_graph node_id n) = Some AliasNode) as ->.
    { unfold outcome_of. simpl.
      destruct (String.eqb_spec node_id ref) as [->|]; [congruence|done]. }
    assert (is_circular_no (load_graph data) ref)
      by (apply Hcirc; by eexists).
    split_and!; split; try done; try tauto. }
  assert (¬ is_circular_no (load_graph data) ref) as Hnc.
  { rewrite <- Hcirc. by intros [? ?]. }
  destruct (PyDict.get (reference_map (load_graph data)) ref)
    as [sources|] eqn:Er.
  { exists (referenced_external sources). split; [done|].
    assert (outcome_of ref (referenced_external sources)
            = Some ExternallyReferenced) as -> by done.
    assert (is_edge_target (load_graph data) ref)
      by (apply Hedge; by eexists).
    split_and!; split; try done; try tauto. }
  assert (¬ is_edge_target (load_graph data) ref) as Hne.
  { rewrite <- Hedge. by intros [? ?]. }
  destruct (_fuzzy_match_reference norm (load_graph data) ref)
    as [|m matches] eqn:Ef.
  - exists external. split; [done|].
    assert (outcome_of ref external = Some Unresolved) as -> by done.
    assert (¬ is_fuzzy norm (load_graph data) ref)
      by (rewrite <- Hfuzzy; tauto).
    split_and!; split; try done; try tauto.
  - exists (fuzzy_match (m :: matches)). split; [done|].
    assert (outcome_of ref (fuzzy_match (m :: matches)) = Some FuzzyMatch)
      as -> by done.
    assert (is_fuzzy norm (load_graph data) ref)
      by (apply Hfuzzy; done).
    split_and!; split; try done; try tauto.
Qed.

(** X13. The entry of an external reference lists who cites it: for a
    candidate that is neither a node id nor a registered circular number
    and that some edge points to, [referenced_by] is the list of the
    sources of the edges that point to it, one per edge, and the message
    counts these edges. *)
Theorem referenced_external_lists_sources
    (norm : string → string) (data : graph_data) (ref : string) :
  ¬ is_node_id (load_graph data) ref →
  ¬ is_circular_no (load_graph data) ref →
  is_edge_target (load_graph data) ref →
  ∃ d, resolve_one norm (load_graph data) ref = Ok d
    ∧ d_type d = "referenced_external"%string
    ∧ d_referenced_by d = Some (sources_of (data_edges data) ref)
    ∧ d_message d
      = Some ("Referenced by "
              +:+ pretty (length (sources_of (data_edges data) ref))
              +:+ " circular(s) in graph")
    ∧ d_references d = [].
Proof.
  intros Hno Hnc He. unfold resolve_one.
  destruct (PyDict.get (nodes (load_graph data)) ref) as [n|] eqn:En.
  { exfalso. apply Hno. apply get_is_Some_keys. by eexists. }
  destruct (PyDict.get (circular_to_node (load_graph data)) ref)
    as [node_id|] eqn:Ec.
  { exfalso. apply Hnc, circular_to_node_is_Some. by eexists. }
  apply reference_map_is_Some in He as [sources Hs].
  rewrite Hs. simpl in Hs. rewrite load_reference_map_get in Hs.
  destruct (sources_of (data_edges data) ref) as [|s l] eqn:E; [done|].
  injection Hs as <-. by eexists.
Qed.

Lemma referenced_external_lists_sources_witness :
  ∃ d, resolve_one Root.normalize (load_graph (export_to_json Scenario.readded))
         "R/1" = Ok d
    ∧ d_type d = "referenced_external"%string
    ∧ d_referenced_by d
      = Some (sources_of (data_edges (export_to_json Scenario.readded)) "R/1")
    ∧ d_message d
      = Some ("Referenced by "
              +:+ pretty (length (sources_of (data_edges (export_to_json Scenario.readded))
                                             "R/1"))
              +:+ " circular(s) in graph")
    ∧ d_references d = [].
Proof.
  apply (referenced_external_lists_sources Root.normalize
           (export_to_json Scenario.readded) "R/1").
  - vm_compute. intros H. apply list_elem_of_singleton in H. discriminate.
  - intros (_ & node_id & n & Hn & Hc). vm_compute in Hn.
    apply list_elem_of_singleton in Hn. simplify_eq.
  - exists (mkEdge "a.pdf" "C/1" "R/1" "references"). split; [|done].
    vm_compute. left.
Defined.

(** ** From the builder to the analyzer *)

Lemma add_circulars_snoc (g : CircularKnowledgeGraph)
    (docs : list (string * string * list string))
    (doc : string * string * list string) :
  add_circulars g (docs ++ [doc])
  = add_circular (add_circulars g docs) doc.1.1 doc.1.2 doc.2.
Proof. unfold add_circulars. by rewrite foldl_app. Qed.

Lemma add_circulars_get (g : CircularKnowledgeGraph)
    (docs : list (string * string * list string))
    (filename circular_no : string) (references : list string) :
  NoDup (map (λ doc, doc.1.1) docs) →
  (filename, circular_no, references) ∈ docs →
  PyDict.get (kg_nodes (add_circulars g docs)) filename
  = Some {| nd_filename := filename;
            nd_circular_no := circular_no;
            nd_references := references;
            nd_reference_count := Z.of_nat (length references) |}.
Proof.
  induction docs as [|doc docs IH] using rev_ind; intros Hnd Hin.
  - by apply elem_of_nil in Hin.
  - rewrite add_circulars_snoc. unfold add_circular. simpl.
    rewrite map_app in Hnd. apply NoDup_app in Hnd as (Hnd & Hfresh & _).
    apply elem_of_app in Hin as [Hin|Hin].
    + rewrite get_set_ne; [by apply IH|].
      intros Heq. apply (Hfresh filename).
      * apply list_elem_of_In, in_map_iff.
        exists (filename, circular_no, references).
        split; [done|]. by apply list_elem_of_In.
      * rewrite <- Heq. simpl. left.
    + apply list_elem_of_singleton in Hin as <-. simpl. apply get_set_eq.
Qed.

Lemma add_circulars_keys (g : CircularKnowledgeGraph)
    (docs : list (string * string * list string)) :
  NoDup (PyDict.keys (kg_nodes g)) →
  NoDup (PyDict.keys (kg_nodes (add_circulars g docs)))
  ∧ ∀ f, f ∈ PyDict.keys (kg_nodes (add_circulars g docs)) ↔
         f ∈ PyDict.keys (kg_nodes g) ∨ f ∈ map (λ doc, doc.1.1) docs.
Proof.
  intros Hg. induction docs as [|doc docs [IH1 IH2]] using rev_ind.
  - split; [done|]. intros f. simpl. rewrite elem_of_nil. tauto.
  - rewrite add_circulars_snoc. unfold add_circular. simpl. split.
    + by apply NoDup_keys_set.
    + intros f. rewrite elem_of_keys_set, IH2, map_app, elem_of_app.
      simpl. rewrite list_elem_of_singleton. tauto.
Qed.

Lemma add_circulars_edges (g : CircularKnowledgeGraph)
    (docs : list (string * string * list string)) :
  length (kg_edges (add_circulars g docs))
  = (length (kg_edges g) + sum_list (map (λ doc, length doc.2) docs))%nat.
Proof.
  revert g. induction docs as [|doc docs IH]; intros g; simpl.
  - lia.
  - unfold add_circulars in *. simpl. rewrite IH. simpl.
    rewrite length_app, length_map. lia.
Qed.

Lemma add_circulars_edges_from_nodes (g : CircularKnowledgeGraph)
    (docs : list (string * string * list string)) :
  edges_from_nodes g → edges_from_nodes (add_circulars g docs).
Proof.
  revert g. induction docs as [|doc docs IH]; intros g Hg; [done|].
  unfold add_circulars in *. simpl.
  by apply IH, add_circular_edges_from_nodes.
Qed.

Lemma add_circulars_node_fields (g : CircularKnowledgeGraph)
    (docs : list (string * string * list string)) :
  (∀ f nd, PyDict.get (kg_nodes g) f = Some nd →
     nd_filename nd = f
     ∧ nd_reference_count nd = Z.of_nat (length (nd_references nd))) →
  ∀ f nd, PyDict.get (kg_nodes (add_circulars g docs)) f = Some nd →
    nd_filename nd = f
    ∧ nd_reference_count nd = Z.of_nat (length (nd_references nd)).
Proof.
  revert g. induction docs as [|doc docs IH]; intros g Hg; [done|].
  unfold add_circulars in *. simpl. apply IH.
  intros f nd. unfold add_circular. simpl.
  destruct (decide (doc.1.1 = f)) as [<-|Hne].
  - rewrite get_set_eq. by intros [= <-].
  - rewrite get_set_ne by done. apply Hg.
Qed.

(** X14. What a run of the builder stores, whatever the file names: as
    many edges as the calls had references in all, one node per distinct
    file name, every edge starting at a stored node, and every node filed
    under its file name with a reference count equal to the length of its
    reference list. *)
Theorem add_circulars_counts (docs : list (string * string * list string)) :
  length (kg_edges (add_circulars new_graph docs))
  = sum_list (map (λ doc, length doc.2) docs)
  ∧ NoDup (PyDict.keys (kg_nodes (add_circulars new_graph docs)))
  ∧ (∀ f, f ∈ PyDict.keys (kg_nodes (add_circulars new_graph docs))
          ↔ f ∈ map (λ doc, doc.1.1) docs)
  ∧ (∀ e, e ∈ kg_edges (add_circulars new_graph docs) →
          e_source e ∈ PyDict.keys (kg_nodes (add_circulars new_graph docs)))
  ∧ (∀ f nd, PyDict.get (kg_nodes (add_circulars new_graph docs)) f = Some nd →
       nd_filename nd = f
       ∧ nd_reference_count nd = Z.of_nat (length (nd_references nd))).
Proof.
  destruct (add_circulars_keys new_graph docs) as [Hnd Hkeys];
    [apply NoDup_nil_2|].
  split_and!.
  - by rewrite add_circulars_edges.
  - done.
  - intros f. rewrite Hkeys. simpl. rewrite elem_of_nil. tauto.
  - apply add_circulars_edges_from_nodes. intros e He.
    by apply elem_of_nil in He.
  - apply add_circulars_node_fields. intros f nd Hget. done.
Qed.

Lemma get_app {V : Type} (d1 d2 : list (string * V)) (k : string) :
  PyDict.get (d1 ++ d2) k
  = match PyDict.get d1 k with
    | Some v => Some v
    | None => PyDict.get d2 k
    end.
Proof.
  induction d1 as [|[k' v'] d1 IH]; simpl; [done|].
  by destruct (String.eqb k' k).
Qed.

Lemma load_nodes_export (d : list (string * node_data)) (k : string) :
  NoDup (PyDict.keys d) →
  PyDict.get
    (load_nodes
       (map (λ kv, {| n_id := kv.1;
                      n_filename := nd_filename kv.2;
                      n_circular_no := Some (nd_circular_no kv.2);
                      n_references := Some (nd_references kv.2);
                      n_reference_count := nd_reference_count kv.2 |}) d)) k
  = (λ nd, {| n_id := k;
              n_filename := nd_filename nd;
              n_circular_no := Some (nd_circular_no nd);
              n_references := Some (nd_references nd);
              n_reference_count := nd_reference_count nd |})
    <$> PyDict.get d k.
Proof.
  induction d as [|[k' v'] d IH] using rev_ind; intros Hnd; [done|].
  unfold PyDict.keys in Hnd. rewrite fmap_app in Hnd.
  apply NoDup_app in Hnd as (Hnd & Hfresh & _).
  rewrite map_app. simpl. rewrite load_nodes_snoc. simpl.
  rewrite get_app. simpl.
  destruct (String.eqb_spec k' k) as [->|Hne].
  - rewrite get_set_eq.
    assert (PyDict.get d k = None) as ->; [|done].
    apply get_None_keys. intros Hin. apply (Hfresh k Hin). simpl. left.
  - rewrite get_set_ne by done. rewrite IH by done.
    by destruct (PyDict.get d k).
Qed.

Lemma _get_node_references_edge_targets (g : CircularKnowledgeGraph)
    (node_id : string) :
  _get_node_references (load_graph (export_to_json g)) node_id
  = edge_targets g node_id.
Proof.
  unfold _get_node_references, edge_targets. simpl.
  rewrite (foldl_collect (λ e, String.eqb (e_source e) node_id)
             e_target_reference).
  simpl. f_equal. apply list_filter_iff. intros e.
  by rewrite String.eqb_eq.
Qed.

(** X15. From the builder to the analyzer. When the documents have
    pairwise different file names, the graph that the builder exports and
    the analyzer loads holds, for every document, a node under its file
    name with the circular number and the references of the call; the edges
    that start at it give the same references in the same order; and the
    file name, as a candidate, resolves to that node. *)
Theorem build_round_trip
    (norm : string → string) (docs : list (string * string * list string))
    (filename circular_no : string) (references : list string) :
  NoDup (map (λ doc, doc.1.1) docs) →
  (filename, circular_no, references) ∈ docs →
  PyDict.get
    (nodes (load_graph (export_to_json (add_circulars new_graph docs))))
    filename
  = Some (mkNode filename filename (Some circular_no) (Some references)
            (Z.of_nat (length references)))
  ∧ _get_node_references
      (load_graph (export_to_json (add_circulars new_graph docs))) filename
    = references
  ∧ resolve_one norm
      (load_graph (export_to_json (add_circulars new_graph docs))) filename
    = Ok (in_graph filename
            (mkNode filename filename (Some circular_no) (Some references)
               (Z.of_nat (length references)))).
Proof.
  intros Hnd Hin.
  pose proof (add_circulars_get new_graph docs _ _ _ Hnd Hin) as Hget.
  assert (PyDict.get
            (nodes (load_graph (export_to_json (add_circulars new_graph docs))))
            filename
          = Some (mkNode filename filename (Some circular_no) (Some references)
                    (Z.of_nat (length references)))) as Hnode.
  { simpl. rewrite load_nodes_export.
    - by rewrite Hget.
    - apply add_circulars_keys, NoDup_nil_2. }
  split_and!.
  - done.
  - rewrite _get_node_references_edge_targets.
    rewrite (add_circulars_distinct_ids_from new_graph docs) with
      (nd := mkNodeData filename circular_no references
               (Z.of_nat (length references))); try done.
    + intros e He. by apply elem_of_nil in He.
    + intros doc _ Hdoc. by apply elem_of_nil in Hdoc.
  - unfold resolve_one. by rewrite Hnode.
Qed.

Lemma build_round_trip_witness :
  PyDict.get
    (nodes (load_graph (export_to_json
              (add_circulars new_graph
                 [("s.pdf", "S", ["AB"]); ("ab.pdf", "AB", ["A B"])]%string))))
    "ab.pdf"
  = Some (mkNode "ab.pdf" "ab.pdf" (Some "AB"%string) (Some ["A B"%string])
            (Z.of_nat (length ["A B"%string])))
  ∧ _get_node_references
      (load_graph (export_to_json
         (add_circulars new_graph
            [("s.pdf", "S", ["AB"]); ("ab.pdf", "AB", ["A B"])]%string)))
      "ab.pdf"
    = ["A B"%string]
  ∧ resolve_one Root.normalize
      (load_graph (export_to_json
         (add_circulars new_graph
            [("s.pdf", "S", ["AB"]); ("ab.pdf", "AB", ["A B"])]%string)))
      "ab.pdf"
    = Ok (in_graph "ab.pdf"
            (mkNode "ab.pdf" "ab.pdf" (Some "AB"%string) (Some ["A B"%string])
               (Z.of_nat (length ["A B"%string])))).
Proof.
  apply (build_round_trip Root.normalize
           [("s.pdf", "S", ["AB"]); ("ab.pdf", "AB", ["A B"])]%string
           "ab.pdf" "AB" ["A B"%string]).
  - vm_compute. repeat constructor; set_solver.
  - right. left.
Defined.

(** ** GraphML escaping *)

Lemma str_replace_app (old : ascii) (new a b : string) :
  str_replace old new (a ++ b)
  = (str_replace old new a ++ str_replace old new b)%string.
Proof.
  induction a as [|c a IH]; [done|].
  rewrite string_app_cons. simpl. rewrite IH.
  destruct (Ascii.eqb c old); [|done]. by rewrite string_app_assoc.
Qed.

Lemma escape_xml_app (a b : string) :
  _escape_xml (a ++ b) = (_escape_xml a ++ _escape_xml b)%string.
Proof. unfold _escape_xml. by rewrite !str_replace_app. Qed.

Lemma escape_xml_char (c : ascii) :
  _escape_xml (String c EmptyString) = escape_char c.
Proof. destruct c as [[] [] [] [] [] [] [] []]; reflexivity. Qed.

(** The five replacements in a row escape every character once: the
    ampersands that the later replacements write are not escaped again. *)
Lemma escape_xml_each (s : string) : _escape_xml s = escape_each s.
Proof.
  induction s as [|c s IH]; [done|].
  change (String c s) with (String c EmptyString ++ s)%string.
  by rewrite escape_xml_app, escape_xml_char, IH.
Qed.

Lemma has_char_app (c : ascii) (a b : string) :
  PyStr.has_char c (a ++ b) = PyStr.has_char c a || PyStr.has_char c b.
Proof.
  induction a as [|d a IH]; [done|].
  rewrite string_app_cons. simpl. rewrite IH. by rewrite orb_assoc.
Qed.

Lemma escape_char_no_markup (d : ascii) :
  PyStr.has_char "<" (escape_char d) = false
  ∧ PyStr.has_char ">" (escape_char d) = false
  ∧ PyStr.has_char "034" (escape_char d) = false
  ∧ PyStr.has_char "'" (escape_char d) = false.
Proof. destruct d as [[] [] [] [] [] [] [] []]; vm_compute; done. Qed.

Lemma escape_char_plain (d : ascii) :
  Ascii.eqb d "&" = false → Ascii.eqb d "<" = false →
  Ascii.eqb d ">" = false → Ascii.eqb d "034" = false →
  Ascii.eqb d "'" = false →
  escape_char d = String d EmptyString.
Proof. unfold escape_char. by intros -> -> -> -> ->. Qed.

(** X16. The text that [_escape_xml] returns holds no [<], no [>] and no
    quote of either kind, and a text that holds none of the five special
    characters is returned as it is. *)
Theorem escape_xml_no_markup (text : string) :
  PyStr.has_char "<" (_escape_xml text) = false
  ∧ PyStr.has_char ">" (_escape_xml text) = false
  ∧ PyStr.has_char "034" (_escape_xml text) = false
  ∧ PyStr.has_char "'" (_escape_xml text) = false
  ∧ (PyStr.has_char "&" text = false → PyStr.has_char "<" text = false →
     PyStr.has_char ">" text = false → PyStr.has_char "034" text = false →
     PyStr.has_char "'" text = false → _escape_xml text = text).
Proof.
  rewrite escape_xml_each. induction text as [|d s IH]; [done|].
  destruct IH as (IH1 & IH2 & IH3 & IH4 & IH5).
  destruct (escape_char_no_markup d) as (H1 & H2 & H3 & H4).
  cbn [escape_each]. rewrite !has_char_app, H1, H2, H3, H4, IH1, IH2, IH3, IH4.
  split_and!; try done.
  cbn [PyStr.has_char].
  intros [Ha Ha']%orb_false_elim [Hb Hb']%orb_false_elim
         [Hc Hc']%orb_false_elim [Hd Hd']%orb_false_elim
         [He He']%orb_false_elim.
  rewrite escape_char_plain by done.
  rewrite string_app_cons, string_app_nil_l. f_equal. by apply IH5.
Qed.

Lemma escape_char_prefix_free (c1 c2 : ascii) (t1 t2 : string) :
  (escape_char c1 ++ t1)%string = (escape_char c2 ++ t2)%string →
  c1 = c2 ∧ t1 = t2.
Proof.
  unfold escape_char.
  destruct (Ascii.eqb_spec c1 "&"); [subst c1|];
  [|destruct (Ascii.eqb_spec c1 "<"); [subst c1|];
  [|destruct (Ascii.eqb_spec c1 ">"); [subst c1|];
  [|destruct (Ascii.eqb_spec c1 "034"); [subst c1|];
  [|destruct (Ascii.eqb_spec c1 "'"); [subst c1|]]]]];
  (destruct (Ascii.eqb_spec c2 "&"); [subst c2|];
  [|destruct (Ascii.eqb_spec c2 "<"); [subst c2|];
  [|destruct (Ascii.eqb_spec c2 ">"); [subst c2|];
  [|destruct (Ascii.eqb_spec c2 "034"); [subst c2|];
  [|destruct (Ascii.eqb_spec c2 "'"); [subst c2|]]]]]);
  rewrite ?string_app_cons, ?string_app_nil_l; intros Heq;
  injection Heq; intros; subst; try done; try congruence.
Qed.

(** X17. [_escape_xml] loses nothing: two texts have the same escaped form
    only when they are the same text. *)
Theorem escape_xml_injective (text1 text2 : string) :
  _escape_xml text1 = _escape_xml text2 ↔ text1 = text2.
Proof.
  split; [|by intros ->].
  rewrite !escape_xml_each. revert text2.
  induction text1 as [|c1 s1 IH]; intros [|c2 s2]; cbn [escape_each].
  - done.
  - intros Heq. exfalso. revert Heq. unfold escape_char.
    repeat (destruct (Ascii.eqb _ _)); rewrite ?string_app_cons; discriminate.
  - intros Heq. exfalso. revert Heq. unfold escape_char.
    repeat (destruct (Ascii.eqb _ _)); rewrite ?string_app_cons; discriminate.
  - intros [-> Heq]%escape_char_prefix_free. f_equal. by apply IH.
Qed.

(** ** The build loop *)

Section build_facts.
Variable extract_text : string → string.
Variable get_circular_number : string → string.
Variable extract_circular_references : string → list string.
Variable name : string → string.

Lemma add_circulars_ext (g g' : CircularKnowledgeGraph)
    (docs : list (string * string * list string)) :
  kg_nodes g = kg_nodes g' → kg_edges g = kg_edges g' →
  kg_nodes (add_circulars g docs) = kg_nodes (add_circulars g' docs)
  ∧ kg_edges (add_circulars g docs) = kg_edges (add_circulars g' docs).
Proof.
  revert g g'. induction docs as [|doc docs IH]; intros g g' Hn He; [done|].
  unfold add_circulars in *. cbn [foldl].
  apply IH; unfold add_circular; cbn; by rewrite ?Hn, ?He.
Qed.

Lemma main_loop_from (files : list string) (g : CircularKnowledgeGraph) :
  kg_nodes (foldl (main_step extract_text get_circular_number
           extract_circular_references name) g files) = kg_nodes (add_circulars g (processed extract_text get_circular_number
       extract_circular_references name files))
  ∧ kg_edges (foldl (main_step extract_text get_circular_number
           extract_circular_references name) g files) = kg_edges (add_circulars g (processed extract_text get_circular_number
       extract_circular_references name files))
  ∧ total_pdfs (kg_extraction_stats (foldl (main_step extract_text get_circular_number
           extract_circular_references name) g files))
    = total_pdfs (kg_extraction_stats g)
  ∧ successful_extractions (kg_extraction_stats (foldl (main_step extract_text get_circular_number
           extract_circular_references name) g files))
    = successful_extractions (kg_extraction_stats g)
      + Z.of_nat (length (processed extract_text get_circular_number
       extract_circular_references name files))
  ∧ failed_extractions (kg_extraction_stats (foldl (main_step extract_text get_circular_number
           extract_circular_references name) g files))
    = failed_extractions (kg_extraction_stats g)
      + Z.of_nat (length files) - Z.of_nat (length (processed extract_text get_circular_number
       extract_circular_references name files))
  ∧ total_references (kg_extraction_stats (foldl (main_step extract_text get_circular_number
           extract_circular_references name) g files))
    = total_references (kg_extraction_stats g).
Proof.
  revert g. induction files as [|p files IH]; intros g.
  - simpl. split_and!; try done; lia.
  - cbn [foldl]. destruct (IH (main_step extract_text get_circular_number
           extract_circular_references name g p)) as (H1 & H2 & H3 & H4 & H5 & H6).
    rewrite H1, H2, H3, H4, H5, H6. clear.
    unfold main_step, process_circular, processed.
    destruct (extract_text p) as [|c t] eqn:E.
    + rewrite filter_cons_False by (rewrite E; tauto).
      cbn [PyStr.truthy negb].
      match goal with
      | |- context [add_circulars ?g1 ?ds] =>
          destruct (add_circulars_ext g1 g ds) as [-> ->]; try done
      end.
      cbn. split_and!; try done; lia.
    + rewrite filter_cons_True by (rewrite E; done).
      cbn [PyStr.truthy negb map].
      match goal with
      | |- context [add_circulars ?g1 ?ds] =>
          destruct (add_circulars_ext g1
                      (add_circular g (name p) (get_circular_number p)
                         (extract_circular_references p)) ds)
            as [-> ->]; try done
      end.
      cbn. split_and!; try done; lia.
Qed.

(** X18. The loop of the builder's [main]. Every file is counted once, as
    a success or as a failure; the successes are the files with a non-empty
    text; the graph is the one that [add_circular] builds from these files
    in the order of the loop, so that it holds at most one node per
    success; and the entry [total_references] of the statistics is still
    0. *)
Theorem main_build_stats (pdf_files : list string) :
  let graph := main_build extract_text get_circular_number
                 extract_circular_references name pdf_files in
  let stats := kg_extraction_stats graph in
  total_pdfs stats = Z.of_nat (length pdf_files)
  ∧ successful_extractions stats + failed_extractions stats = total_pdfs stats
  ∧ successful_extractions stats
    = Z.of_nat (length (filter (λ p, extract_text p ≠ EmptyString) pdf_files))
  ∧ kg_nodes graph
    = kg_nodes (add_circulars new_graph
                  (processed extract_text get_circular_number
                     extract_circular_references name pdf_files))
  ∧ kg_edges graph
    = kg_edges (add_circulars new_graph
                  (processed extract_text get_circular_number
                     extract_circular_references name pdf_files))
  ∧ Z.of_nat (length (kg_nodes graph)) ≤ successful_extractions stats
  ∧ total_references stats = 0.
Proof.
  unfold main_build. cbn zeta.
  match goal with |- context [foldl _ ?g0 _] => set (g := g0) end.
  destruct (main_loop_from pdf_files g) as (H1 & H2 & H3 & H4 & H5 & H6).
  rewrite H1, H2, H3, H4, H5, H6.
  destruct (add_circulars_ext g new_graph (processed extract_text get_circular_number
       extract_circular_references name pdf_files)) as [-> ->];
    [done..|].
  destruct (add_circulars_keys new_graph (processed extract_text get_circular_number
       extract_circular_references name pdf_files)) as [Hnd Hkeys];
    [apply NoDup_nil_2|].
  assert (length (PyDict.keys (kg_nodes (add_circulars new_graph
                                           (processed extract_text get_circular_number
       extract_circular_references name pdf_files))))
          ≤ length (map (λ doc : string * string * list string, doc.1.1)
                        (processed extract_text get_circular_number
       extract_circular_references name pdf_files)))%nat as Hle.
  { apply submseteq_length, NoDup_submseteq; [done|].
    intros f Hf. apply Hkeys in Hf as [Hf|Hf]; [|done].
    by apply elem_of_nil in Hf. }
  unfold PyDict.keys in Hle. rewrite length_fmap, length_map in Hle.
  assert (length (processed extract_text get_circular_number
       extract_circular_references name pdf_files)
          = length (filter (λ p, extract_text p ≠ EmptyString) pdf_files))
    as Hlen by (unfold processed; by rewrite length_map).
  rewrite Hlen in *. subst g. cbn.
  split_and!; try done; lia.
Qed.

End build_facts.

(** ** Sorting *)

Section sorted_facts.
Context {A : Type}.
Variable key : A → Z.

Lemma insert_reverse_perm (x : A) (l : list A) :
  PyList.insert_reverse key x l ≡ₚ x :: l.
Proof.
  induction l as [|y l IH]; simpl; [done|].
  destruct (Z.leb (key y) (key x)); [done|].
  rewrite IH. apply Permutation_swap.
Qed.

Lemma sorted_reverse_perm (l : list A) : PyList.sorted_reverse key l ≡ₚ l.
Proof.
  induction l as [|x l IH]; simpl; [done|].
  by rewrite insert_reverse_perm, IH.
Qed.

Lemma insert_reverse_descending (x : A) (l : list A) :
  PyList.descending key l →
  PyList.descending key (PyList.insert_reverse key x l).
Proof.
  induction l as [|y l IH]; simpl.
  - intros _. split; [|done]. intros y Hy. by apply elem_of_nil in Hy.
  - intros [Hy Hl]. destruct (Z.leb_spec (key y) (key x)) as [Hle|Hlt]; simpl.
    + split; [|done]. intros z [->|Hz]%elem_of_cons; [done|].
      specialize (Hy z Hz). lia.
    + split; [|by apply IH]. intros z Hz.
      rewrite insert_reverse_perm in Hz.
      apply elem_of_cons in Hz as [->|Hz]; [lia|by apply Hy].
Qed.

Lemma sorted_reverse_descending (l : list A) :
  PyList.descending key (PyList.sorted_reverse key l).
Proof.
  induction l as [|x l IH]; simpl; [done|].
  by apply insert_reverse_descending.
Qed.

Lemma descending_app (l1 l2 : list A) :
  PyList.descending key (l1 ++ l2) ↔
  PyList.descending key l1 ∧ PyList.descending key l2
  ∧ ∀ x y, x ∈ l1 → y ∈ l2 → key y ≤ key x.
Proof.
  induction l1 as [|x l1 IH]; simpl.
  - split; [intros ?|tauto]. split_and!; try done.
    intros x y Hx. by apply elem_of_nil in Hx.
  - rewrite IH. split.
    + intros (Hx & H1 & H2 & H12). split_and!; try done.
      * intros y Hy. apply Hx, elem_of_app. by left.
      * intros z y [->|Hz]%elem_of_cons Hy; [|by apply H12].
        apply Hx, elem_of_app. by right.
    + intros ((Hx & H1) & H2 & H12). split_and!; try done.
      * intros y [Hy|Hy]%elem_of_app; [by apply Hx|].
        apply H12; [left|done].
      * intros z y Hz Hy. apply H12; [by right|done].
Qed.

Lemma descending_take (n : nat) (l : list A) :
  PyList.descending key l → PyList.descending key (take n l).
Proof.
  intros Hl. rewrite <- (take_drop n l) in Hl.
  by apply descending_app in Hl as (? & _ & _).
Qed.

(** The items left out by [l[:n]] have keys no larger than those kept. *)
Lemma descending_take_top (n : nat) (l : list A) (y : A) :
  PyList.descending key l → y ∈ l →
  y ∈ take n l
  ∨ length (take n l) = n ∧ ∀ x, x ∈ take n l → key y ≤ key x.
Proof.
  intros Hl Hy. rewrite <- (take_drop n l) in Hl, Hy.
  apply descending_app in Hl as (_ & _ & H12).
  apply elem_of_app in Hy as [Hy|Hy]; [by left|]. right. split.
  - rewrite length_take. destruct (decide (n ≤ length l)%nat); [lia|].
    rewrite drop_ge in Hy by lia. by apply elem_of_nil in Hy.
  - intros x Hx. by apply H12.
Qed.

(** The sort is stable: items with one key keep their order. *)
Lemma insert_reverse_filter (k : Z) (x : A) (l : list A) :
  filter (λ y, key y = k) (PyList.insert_reverse key x l)
  = filter (λ y, key y = k) (x :: l).
Proof.
  induction l as [|y l IH]; simpl; [done|].
  destruct (Z.leb_spec (key y) (key x)) as [Hle|Hlt]; [done|].
  rewrite (filter_cons _ y), IH, !(filter_cons _ x), (filter_cons _ y).
  destruct (decide (key x = k)), (decide (key y = k)); try done. lia.
Qed.

Lemma sorted_reverse_stable (k : Z) (l : list A) :
  filter (λ y, key y = k) (PyList.sorted_reverse key l)
  = filter (λ y, key y = k) l.
Proof.
  induction l as [|x l IH]; simpl; [done|].
  by rewrite insert_reverse_filter, !filter_cons, IH.
Qed.

End sorted_facts.

Lemma descending_map {A B : Type} (f : A → B) (keyA : A → Z) (keyB : B → Z)
    (l : list A) :
  (∀ x, keyB (f x) = keyA x) →
  PyList.descending keyA l → PyList.descending keyB (map f l).
Proof.
  intros Hkey. induction l as [|x l IH]; simpl; [done|].
  intros [Hx Hl]. split; [|by apply IH].
  intros y Hy. apply list_elem_of_In, in_map_iff in Hy as (z & <- & Hz).
  rewrite !Hkey. by apply Hx, list_elem_of_In.
Qed.

Lemma filter_map_key {A B : Type} (f : A → B) (keyA : A → Z) (keyB : B → Z)
    (k : Z) (l : list A) :
  (∀ x, keyB (f x) = keyA x) →
  filter (λ y, keyB y = k) (map f l) = map f (filter (λ x, keyA x = k) l).
Proof.
  intros Hkey. induction l as [|x l IH]; simpl; [done|].
  rewrite !filter_cons, Hkey, IH. by destruct (decide (keyA x = k)).
Qed.

(** ** Statistics of the builder *)

Lemma ref_counts_snoc (es : list edge) (e : edge) :
  ref_counts (es ++ [e])
  = PyDict.set (ref_counts es) (e_target_reference e)
      (default 0 (PyDict.get (ref_counts es) (e_target_reference e)) + 1).
Proof. unfold ref_counts. by rewrite foldl_app. Qed.

Lemma ref_counts_NoDup (es : list edge) : NoDup (PyDict.keys (ref_counts es)).
Proof.
  induction es as [|e es IH] using rev_ind; [apply NoDup_nil_2|].
  rewrite ref_counts_snoc. by apply NoDup_keys_set.
Qed.

Lemma ref_counts_get (es : list edge) (target : string) :
  PyDict.get (ref_counts es) target
  = if decide (times_referenced es target = 0) then None
    else Some (times_referenced es target).
Proof.
  unfold times_referenced.
  induction es as [|e es IH] using rev_ind; [done|].
  rewrite ref_counts_snoc, filter_app, length_app.
  destruct (decide (e_target_reference e = target)) as [<-|Hne].
  - rewrite get_set_eq, filter_cons_True by done. rewrite filter_nil. simpl.
    rewrite IH. repeat case_decide; simpl; try lia; f_equal; lia.
  - rewrite get_set_ne by done.
    rewrite filter_cons_False by done. rewrite filter_nil. simpl.
    rewrite Nat.add_0_r. apply IH.
Qed.

Lemma ref_counts_elem (es : list edge) (target : string) (n : Z) :
  (target, n) ∈ ref_counts es ↔
  n = times_referenced es target ∧ 0 < n.
Proof.
  split.
  - intros Hin. apply elem_get_NoDup in Hin; [|apply ref_counts_NoDup].
    rewrite ref_counts_get in Hin. case_decide; [done|].
    injection Hin as <-. unfold times_referenced in *. lia.
  - intros [-> Hpos]. apply get_Some_elem. rewrite ref_counts_get.
    case_decide; [lia|done].
Qed.

(** X19. [_get_most_referenced] returns at most ten pairs, for pairwise
    different targets, each with the number of edges that point to the
    target, in decreasing order of that number; and a target of some edge
    that is left out is pointed to by no more edges than any target
    listed. *)
Theorem most_referenced_top (self : CircularKnowledgeGraph) :
  (length (_get_most_referenced self) ≤ 10)%nat
  ∧ NoDup (_get_most_referenced self).*1
  ∧ (∀ target n, (target, n) ∈ _get_most_referenced self →
       n = times_referenced (kg_edges self) target ∧ 0 < n)
  ∧ PyList.descending snd (_get_most_referenced self)
  ∧ (∀ e, e ∈ kg_edges self →
       e_target_reference e ∈ (_get_most_referenced self).*1
       ∨ length (_get_most_referenced self) = 10%nat
         ∧ ∀ x, x ∈ _get_most_referenced self →
             times_referenced (kg_edges self) (e_target_reference e) ≤ x.2).
Proof.
  unfold _get_most_referenced. cbn zeta.
  set (counts := ref_counts (kg_edges self)).
  set (sorted_refs := PyList.sorted_reverse snd counts).
  assert (sorted_refs ≡ₚ counts) as Hperm by apply sorted_reverse_perm.
  assert (PyList.descending snd sorted_refs) as Hdesc
    by apply sorted_reverse_descending.
  split_and!.
  - rewrite length_take. lia.
  - apply (sublist_NoDup _ sorted_refs.*1).
    + rewrite Hperm. apply ref_counts_NoDup.
    + apply fmap_sublist, sublist_take.
  - intros target n Hin. apply ref_counts_elem. fold counts.
    rewrite <- Hperm. by eapply elem_of_sublist, sublist_take.
  - by apply descending_take.
  - intros e He.
    assert (0 < times_referenced (kg_edges self) (e_target_reference e))
      as Hpos.
    { unfold times_referenced.
      assert (e ∈ filter (λ e', e_target_reference e' = e_target_reference e)
                         (kg_edges self)) as Hin
        by (by apply list_elem_of_filter).
      destruct (filter _ (kg_edges self)); [by apply elem_of_nil in Hin|].
      simpl. lia. }
    assert ((e_target_reference e,
             times_referenced (kg_edges self) (e_target_reference e))
            ∈ sorted_refs) as Hin.
    { rewrite Hperm. by apply ref_counts_elem. }
    destruct (descending_take_top snd 10 sorted_refs _ Hdesc Hin)
      as [Htop|[Hlen Hle]].
    + left. apply list_elem_of_fmap. by eexists (_, _).
    + right. split; [done|]. intros x Hx. by apply Hle.
Qed.

(** X20. [_get_most_outgoing_refs] returns the circular number and the
    reference count of at most ten stored nodes, in decreasing order of the
    count; when no more than ten nodes are stored it lists them all, and
    nodes with equal counts keep the order in which they were first added;
    and a node that is left out has a count no larger than any count
    listed. *)
Theorem most_outgoing_refs_top (self : CircularKnowledgeGraph) :
  length (_get_most_outgoing_refs self)
  = Nat.min 10 (length (kg_nodes self))
  ∧ PyList.descending snd (_get_most_outgoing_refs self)
  ∧ (∀ x, x ∈ _get_most_outgoing_refs self →
       ∃ node_id nd, (node_id, nd) ∈ kg_nodes self
         ∧ x = (nd_circular_no nd, nd_reference_count nd))
  ∧ ((length (kg_nodes self) ≤ 10)%nat →
     ∀ k, filter (λ x, x.2 = k) (_get_most_outgoing_refs self)
          = map (λ node : string * node_data,
                   (nd_circular_no node.2, nd_reference_count node.2))
                (filter (λ node, nd_reference_count node.2 = k)
                        (kg_nodes self)))
  ∧ (∀ node_id nd, (node_id, nd) ∈ kg_nodes self →
       (nd_circular_no nd, nd_reference_count nd)
         ∈ _get_most_outgoing_refs self
       ∨ length (_get_most_outgoing_refs self) = 10%nat
         ∧ ∀ x, x ∈ _get_most_outgoing_refs self →
             nd_reference_count nd ≤ x.2).
Proof.
  unfold _get_most_outgoing_refs. cbn zeta.
  set (key := λ x : string * node_data, nd_reference_count x.2).
  set (f := λ node : string * node_data,
              (nd_circular_no node.2, nd_reference_count node.2)).
  set (sorted_nodes := PyList.sorted_reverse key (kg_nodes self)).
  assert (sorted_nodes ≡ₚ kg_nodes self) as Hperm
    by apply sorted_reverse_perm.
  assert (PyList.descending key sorted_nodes) as Hdesc
    by apply sorted_reverse_descending.
  assert (∀ x, snd (f x) = key x) as Hkey by done.
  split_and!.
  - rewrite length_map, length_take, (Permutation_length Hperm). done.
  - apply (descending_map f key snd); [done|]. by apply descending_take.
  - intros x Hx. apply list_elem_of_In, in_map_iff in Hx as ([id nd] & <- & Hin).
    exists id, nd. split; [|done]. rewrite <- Hperm.
    eapply elem_of_sublist, sublist_take. by apply list_elem_of_In.
  - intros Hlen k. rewrite take_ge by (rewrite (Permutation_length Hperm); done).
    rewrite (filter_map_key f key snd) by done. f_equal.
    apply sorted_reverse_stable.
  - intros node_id nd Hin.
    assert ((node_id, nd) ∈ sorted_nodes) as Hin' by (by rewrite Hperm).
    destruct (descending_take_top key 10 sorted_nodes _ Hdesc Hin')
      as [Htop|[Hlen Hle]].
    + left. apply list_elem_of_In, in_map_iff. exists (node_id, nd).
      split; [done|]. by apply list_elem_of_In.
    + right. split; [by rewrite length_map|].
      intros x Hx. apply list_elem_of_In, in_map_iff in Hx as (y & <- & Hy).
      apply (Hle y). by apply list_elem_of_In.
Qed.

(** ** What the levels hold *)

Lemma expand_references_of (self : analyzer) (max_depth : Z)
    (current_ref : string) (level : Z) (st st' : bfs_state) :
  expand self max_depth current_ref level st = Ok st' →
  st' = if Z.leb max_depth level then st
        else discover_all (level + 1) st (references_of self current_ref).
Proof.
  unfold expand, references_of. destruct (Z.leb max_depth level).
  { by intros [= <-]. }
  destruct (find_node_id self current_ref) as [node_id|];
    [|by intros [= <-]].
  destruct (PyStr.truthy node_id); [|by intros [= <-]].
  unfold subscript. destruct (PyDict.get (nodes self) node_id) as [n|];
    simpl; [|done].
  by intros [= <-].
Qed.

Section discover_all_facts.
Variable level : Z.

Lemma discover_all_cons (st : bfs_state) (r : string) (refs : list string) :
  discover_all level st (r :: refs)
  = discover_all level (discover level st r) refs.
Proof. reflexivity. Qed.

Lemma discover_all_mono (refs : list string) (st : bfs_state)
    (k : Z) (x : string) :
  at_level (indirect_by_level st) k x →
  at_level (indirect_by_level (discover_all level st refs)) k x.
Proof.
  revert st. induction refs as [|r refs IH]; intros st Hx; [done|].
  rewrite discover_all_cons. apply IH, discover_at_level. by left.
Qed.

Lemma discover_all_queue_mono (refs : list string) (st : bfs_state)
    (r : string) (l : Z) :
  (r, l) ∈ queue st → (r, l) ∈ queue (discover_all level st refs).
Proof.
  revert st. induction refs as [|r' refs IH]; intros st Hx; [done|].
  rewrite discover_all_cons. apply IH. rewrite discover_queue.
  apply elem_of_app. by left.
Qed.

Lemma discover_all_queue_new (refs : list string) (st : bfs_state)
    (r : string) (l : Z) :
  (r, l) ∈ queue (discover_all level st refs) →
  (r, l) ∈ queue st
  ∨ l = level ∧ r ∈ refs
    ∧ at_level (indirect_by_level (discover_all level st refs)) level r.
Proof.
  revert st. induction refs as [|r' refs IH]; intros st; [by left|].
  rewrite discover_all_cons. intros [Hq|(-> & Hr & Hat)]%IH.
  - rewrite discover_queue in Hq. apply elem_of_app in Hq as [Hq|Hq];
      [by left|].
    destruct (decide (r' ∈ visited st)) as [|Hnew];
      [by apply elem_of_nil in Hq|].
    apply list_elem_of_singleton in Hq as [= -> ->]. right.
    split_and!; [done|left|].
    apply discover_all_mono, discover_at_level. by right.
  - right. split_and!; [done|by right|done].
Qed.

Lemma discover_all_new_queued (refs : list string) (st : bfs_state)
    (k : Z) (x : string) :
  at_level (indirect_by_level (discover_all level st refs)) k x →
  at_level (indirect_by_level st) k x
  ∨ k = level ∧ x ∈ refs ∧ (x, k) ∈ queue (discover_all level st refs).
Proof.
  revert st. induction refs as [|r refs IH]; intros st; [by left|].
  rewrite discover_all_cons. intros [Hat|(-> & Hx & Hq)]%IH.
  - apply discover_at_level in Hat as [Hat|(-> & -> & Hnew)]; [by left|].
    right. split_and!; [done|left|].
    apply discover_all_queue_mono. rewrite discover_queue.
    rewrite decide_False by done. apply elem_of_app. right. left.
  - right. split_and!; [done|by right|done].
Qed.

Lemma discover_all_covers (refs : list string) (st : bfs_state) (z : string) :
  z ∈ refs →
  z ∈ visited st
  ∨ at_level (indirect_by_level (discover_all level st refs)) level z.
Proof.
  revert st. induction refs as [|r refs IH]; intros st Hz;
    [by apply elem_of_nil in Hz|].
  rewrite discover_all_cons.
  assert (r ∈ visited st
          ∨ at_level (indirect_by_level (discover_all level (discover level st r)
                                           refs)) level r) as Hr.
  { destruct (decide (r ∈ visited st)) as [|Hnew]; [by left|]. right.
    apply discover_all_mono, discover_at_level. by right. }
  apply elem_of_cons in Hz as [->|Hz]; [done|].
  destruct (IH (discover level st r) Hz) as [Hv|Hat]; [|by right].
  rewrite discover_visited in Hv.
  apply elem_of_union in Hv as [->%elem_of_singleton|Hv]; [done|by left].
Qed.

Lemma discover_inhabited (st : bfs_state) (r : string) :
  (∀ k s, indirect_by_level st !! k = Some s → ∃ x, x ∈ s) →
  ∀ k s, indirect_by_level (discover level st r) !! k = Some s → ∃ x, x ∈ s.
Proof.
  intros Hst k s. unfold discover.
  destruct (decide (r ∈ visited st)); [apply Hst|]. simpl. unfold level_add.
  destruct (decide (k = level)) as [->|Hne].
  - rewrite lookup_insert_eq. intros [= <-]. exists r. set_solver.
  - rewrite lookup_insert_ne by done. apply Hst.
Qed.

Lemma discover_all_inhabited (refs : list string) (st : bfs_state) :
  (∀ k s, indirect_by_level st !! k = Some s → ∃ x, x ∈ s) →
  ∀ k s, indirect_by_level (discover_all level st refs) !! k = Some s →
    ∃ x, x ∈ s.
Proof.
  revert st. induction refs as [|r refs IH]; intros st Hst; [done|].
  rewrite discover_all_cons. by apply IH, discover_inhabited.
Qed.

End discover_all_facts.

Section reach_facts.
Variable self : analyzer.
Variable direct_refs : list (string * details).

(** Recording the references [refs] of something that accounts for them
    keeps the state accounted for. *)
Lemma discover_all_reach (level : Z) (refs : list string) (st : bfs_state) :
  reach_inv self direct_refs st →
  2 ≤ level →
  (level = 2 ∧ ∃ item, item ∈ direct_refs ∧ refs = d_references item.2)
  ∨ (2 < level
     ∧ ∃ y, at_level (indirect_by_level st) (level - 1) y
            ∧ refs = references_of self y) →
  reach_inv self direct_refs (discover_all level st refs).
Proof.
  intros [H2 Hp Hq Hi Hc] Hlevel Hwhy. split.
  - intros x [Hat|(Hk & Hx & _)]%discover_all_new_queued; [by apply H2|].
    destruct Hwhy as [(_ & item & Hitem & ->)|[Hlt _]]; [|lia].
    by exists item.
  - intros k x [Hat|(-> & Hx & _)]%discover_all_new_queued Hk.
    + destruct (Hp k x Hat Hk) as (y & Hy & Hxy). exists y.
      split; [by apply discover_all_mono|done].
    + destruct Hwhy as [[-> _]|(_ & y & Hy & ->)]; [lia|].
      exists y. split; [by apply discover_all_mono|done].
  - intros r l [Hin|(-> & _ & Hat)]%discover_all_queue_new; [|done].
    destruct (Hq r l Hin) as [Hl Hat]. split; [done|].
    by apply discover_all_mono.
  - by apply discover_all_inhabited.
  - intros z. rewrite discover_all_visited.
    intros [Hz|Hz]%elem_of_union.
    + apply elem_of_list_to_set in Hz.
      destruct (discover_all_covers level refs st z Hz) as [Hv|Hat];
        [|right; by exists level].
      destruct (Hc z Hv) as [?|[j Hj]]; [by left|].
      right. exists j. by apply discover_all_mono.
    + destruct (Hc z Hz) as [?|[j Hj]]; [by left|].
      right. exists j. by apply discover_all_mono.
Qed.

Lemma initial_reach : reach_inv self direct_refs initial_state.
Proof.
  split; simpl.
  - intros x (s & Hs & _). by rewrite lookup_empty in Hs.
  - intros k x (s & Hs & _). by rewrite lookup_empty in Hs.
  - intros r l Hin. by apply elem_of_nil in Hin.
  - intros k s Hs. by rewrite lookup_empty in Hs.
  - intros z Hz. by apply elem_of_empty in Hz.
Qed.

Lemma seed_one_reach (st : bfs_state) (item : string * details) :
  item ∈ direct_refs →
  reach_inv self direct_refs st →
  reach_inv self direct_refs (seed_one st item).
Proof.
  intros Hitem [H2 Hp Hq Hi Hc]. rewrite seed_one_eq.
  apply discover_all_reach; [|done|left; split; [done|by exists item]].
  split; simpl; try done.
  intros z [->%elem_of_singleton|Hz]%elem_of_union; [|by apply Hc].
  left. apply list_elem_of_fmap. by exists item.
Qed.

Lemma seed_reach_from (items : list (string * details)) (st : bfs_state) :
  (∀ item, item ∈ items → item ∈ direct_refs) →
  reach_inv self direct_refs st →
  reach_inv self direct_refs (foldl seed_one st items).
Proof.
  revert st. induction items as [|item items IH]; intros st Hsub Hst; [done|].
  simpl. apply IH; [intros i Hi; apply Hsub; by right|].
  apply seed_one_reach; [apply Hsub; left|done].
Qed.

Lemma bfs_reach (max_depth : Z) (fuel : nat) (st st' : bfs_state) :
  reach_inv self direct_refs st →
  bfs fuel self max_depth st = Ok st' →
  reach_inv self direct_refs st'.
Proof.
  intros Hinv Hbfs.
  refine (proj1 (bfs_invariant self max_depth (reach_inv self direct_refs)
                   _ fuel st st' Hinv Hbfs)).
  intros lv vs r l q st1 [H2 Hp Hq Hi Hc] ->%expand_references_of.
  simpl in *.
  assert (reach_inv self direct_refs (mkState lv vs q)) as Hpop.
  { split; simpl; try done. intros r' l' Hin. apply Hq. by right. }
  destruct (Z.leb_spec max_depth l) as [|Hlt]; [done|].
  destruct (Hq r l) as [Hl Hat]; [left|].
  apply discover_all_reach; [done|lia|]. right. split; [lia|].
  exists r. split; [|done]. by replace (l + 1 - 1) with l by lia.
Qed.

(** The visited set only grows. *)
Lemma bfs_visited (max_depth : Z) (fuel : nat) (st st' : bfs_state)
    (z : string) :
  z ∈ visited st → bfs fuel self max_depth st = Ok st' → z ∈ visited st'.
Proof.
  intros Hz Hbfs.
  refine (proj1 (bfs_invariant self max_depth (λ st, z ∈ visited st)
                   _ fuel st st' Hz Hbfs)).
  intros lv vs r l q st1 Hv ->%expand_references_of. simpl in *.
  destruct (Z.leb max_depth l); [done|].
  rewrite discover_all_visited. set_solver.
Qed.

Lemma seed_one_visited (st : bfs_state) (item : string * details)
    (z : string) :
  z ∈ visited st ∨ z ∈ d_references item.2 → z ∈ visited (seed_one st item).
Proof.
  rewrite seed_one_eq, discover_all_visited. simpl.
  intros [Hz|Hz]; [set_solver|].
  apply elem_of_union. left. by apply elem_of_list_to_set.
Qed.

Lemma seed_visited_from (items : list (string * details)) (st : bfs_state)
    (z : string) :
  z ∈ visited st ∨ (∃ item, item ∈ items ∧ z ∈ d_references item.2) →
  z ∈ visited (foldl seed_one st items).
Proof.
  revert st. induction items as [|item items IH]; intros st.
  - intros [?|(item & Hitem & _)]; [done|by apply elem_of_nil in Hitem].
  - simpl. intros [Hz|(item' & [->|Hitem]%elem_of_cons & Hz)].
    + apply IH. left. apply seed_one_visited. by left.
    + apply IH. left. apply seed_one_visited. by right.
    + apply IH. right. by exists item'.
Qed.

Lemma discover_all_closed (max_depth : Z) (level : Z) (refs : list string)
    (st : bfs_state) :
  closed_inv self max_depth st →
  closed_inv self max_depth (discover_all level st refs).
Proof.
  intros Hst x l [Hat|(-> & _ & Hq)]%discover_all_new_queued Hl; [|by left].
  destruct (Hst x l Hat Hl) as [Hq|Hv].
  - left. by apply discover_all_queue_mono.
  - right. intros z Hz. rewrite discover_all_visited.
    apply elem_of_union. right. by apply Hv.
Qed.

Lemma seed_closed_from (max_depth : Z) (items : list (string * details))
    (st : bfs_state) :
  closed_inv self max_depth st →
  closed_inv self max_depth (foldl seed_one st items).
Proof.
  revert st. induction items as [|item items IH]; intros st Hst; [done|].
  simpl. apply IH. rewrite seed_one_eq. apply discover_all_closed.
  intros x l Hat Hl. destruct (Hst x l Hat Hl) as [Hq|Hv]; [by left|].
  right. intros z Hz. simpl. apply elem_of_union. right. by apply Hv.
Qed.

Lemma bfs_closed (max_depth : Z) (fuel : nat) (st st' : bfs_state) :
  closed_inv self max_depth st →
  bfs fuel self max_depth st = Ok st' →
  closed_inv self max_depth st'.
Proof.
  intros Hinv Hbfs.
  refine (proj1 (bfs_invariant self max_depth (closed_inv self max_depth)
                   _ fuel st st' Hinv Hbfs)).
  intros lv vs r l q st1 Hst ->%expand_references_of.
  destruct (Z.leb_spec max_depth l) as [Hge|Hlt].
  - intros x l' Hat Hl'. destruct (Hst x l' Hat Hl') as [Hq|Hv]; [|by right].
    simpl in Hq. apply elem_of_cons in Hq as [[= -> ->]|Hq]; [lia|by left].
  - intros x l' [Hat|(-> & _ & Hq)]%discover_all_new_queued Hl'; [|by left].
    destruct (Hst x l' Hat Hl') as [Hq|Hv].
    + simpl in Hq. apply elem_of_cons in Hq as [[= -> ->]|Hq].
      * right. intros z Hz. rewrite discover_all_visited.
        apply elem_of_union. left. by apply elem_of_list_to_set.
      * left. by apply discover_all_queue_mono.
    + right. intros z Hz. rewrite discover_all_visited.
      apply elem_of_union. right. by apply Hv.
Qed.

End reach_facts.

(** The engine on a loaded graph returns the levels of a final state that
    is accounted for, closed below the depth limit, with an empty queue,
    and in which the references of the direct references were visited. *)
Lemma find_indirect_references_reach
    (data : graph_data) (direct_refs : list (string * details))
    (max_depth : Z) :
  ∃ st, find_indirect_references (load_graph data) direct_refs max_depth
        = Ok (indirect_by_level st)
        ∧ queue st = []
        ∧ reach_inv (load_graph data) direct_refs st
        ∧ closed_inv (load_graph data) max_depth st
        ∧ ∀ item z, item ∈ direct_refs → z ∈ d_references item.2 →
            z ∈ visited st.
Proof.
  unfold find_indirect_references.
  destruct (bfs_enough_fuel (load_graph data) max_depth
              (fuel_bound (load_graph data) (seed direct_refs))
              (load_graph_wf data) (seed direct_refs)
              (weight_le_fuel_bound _ _)) as [st Hst].
  exists st. rewrite Hst. split_and!.
  - done.
  - refine (proj2 (bfs_invariant (load_graph data) max_depth (λ _, True)
                     _ _ _ _ I Hst)). done.
  - eapply bfs_reach; [|done]. apply seed_reach_from; [done|].
    apply initial_reach.
  - eapply bfs_closed; [|done]. apply seed_closed_from.
    intros x l (s & Hs & _). simpl in Hs. by rewrite lookup_empty in Hs.
  - intros item z Hitem Hz. eapply bfs_visited; [|done].
    apply seed_visited_from. right. by exists item.
Qed.

(** X21. Every identifier of the result is accounted for: one at level 2
    is a reference of a direct reference, and one at a deeper level is a
    reference of the node that some identifier one level up stands for. *)
Theorem levels_sound
    (data : graph_data) (direct_refs : list (string * details))
    (max_depth : Z) :
  ∃ r, find_indirect_references (load_graph data) direct_refs max_depth = Ok r
    ∧ (∀ x, at_level r 2 x →
         ∃ ref d, (ref, d) ∈ direct_refs ∧ x ∈ d_references d)
    ∧ (∀ k x, at_level r k x → 2 < k →
         ∃ y, at_level r (k - 1) y ∧ x ∈ references_of (load_graph data) y).
Proof.
  destruct (find_indirect_references_reach data direct_refs max_depth)
    as (st & Hst & _ & [H2 Hp _ _ _] & _ & _).
  eexists. split_and!; [done| |done].
  intros x Hx. destruct (H2 x Hx) as ([ref d] & Hin & Hd). by exists ref, d.
Qed.

(** X22. The result has no empty level, and its levels are the numbers
    from 2 up to the deepest one, without a gap; the deepest one is at most
    the depth limit (2 when the limit is lower). *)
Theorem levels_contiguous
    (data : graph_data) (direct_refs : list (string * details))
    (max_depth : Z) :
  ∃ r, find_indirect_references (load_graph data) direct_refs max_depth = Ok r
    ∧ (∀ k s, r !! k = Some s → s ≠ ∅)
    ∧ (∀ k, is_Some (r !! k) → 2 ≤ k ∧ k ≤ Z.max 2 max_depth)
    ∧ (∀ k j, is_Some (r !! k) → 2 ≤ j → j ≤ k → is_Some (r !! j)).
Proof.
  destruct (find_indirect_references_reach data direct_refs max_depth)
    as (st & Hst & _ & [H2 Hp _ Hi _] & _ & _).
  destruct (find_indirect_references_inv data direct_refs max_depth)
    as (st2 & Hst2 & Hinv).
  rewrite Hst in Hst2. injection Hst2 as Heq.
  exists (indirect_by_level st). split_and!; [done| | |].
  - intros k s Hs ->. destruct (Hi k ∅ Hs) as [x Hx]. set_solver.
  - intros k [s Hs]. destruct (Hi k s Hs) as [x Hx].
    apply (inv_range _ _ _ Hinv k x). rewrite <- Heq. by exists s.
  - intros k j Hk Hj Hjk.
    remember (Z.to_nat (k - j)) as n eqn:Hn. revert k Hk Hjk Hn.
    induction n as [|n IH]; intros k Hk Hjk Hn.
    + by replace j with k by lia.
    + destruct Hk as [s Hs]. destruct (Hi k s Hs) as [x Hx].
      destruct (Hp k x) as (y & (s' & Hs' & _) & _);
        [by exists s|lia|].
      apply (IH (k - 1)); [by exists s'|lia|lia].
Qed.

(** X23. Nothing within the depth limit is lost: every reference of a
    direct reference, and every reference of the node that an identifier at
    a level below the depth limit stands for, is a key of the
    direct-reference map or sits at some level of the result. *)
Theorem levels_closed
    (data : graph_data) (direct_refs : list (string * details))
    (max_depth : Z) :
  ∃ r, find_indirect_references (load_graph data) direct_refs max_depth = Ok r
    ∧ (∀ ref d z, (ref, d) ∈ direct_refs → z ∈ d_references d →
         z ∈ PyDict.keys direct_refs ∨ ∃ j, at_level r j z)
    ∧ (∀ k x z, at_level r k x → k < max_depth →
         z ∈ references_of (load_graph data) x →
         z ∈ PyDict.keys direct_refs ∨ ∃ j, at_level r j z).
Proof.
  destruct (find_indirect_references_reach data direct_refs max_depth)
    as (st & Hst & Hq & [_ _ _ _ Hc] & Hclosed & Hseed).
  eexists. split_and!; [done| |].
  - intros ref d z Hin Hz. apply Hc. by apply (Hseed (ref, d)).
  - intros k x z Hx Hk Hz. apply Hc.
    destruct (Hclosed x k Hx Hk) as [Hin|Hv]; [|by apply Hv].
    rewrite Hq in Hin. by apply elem_of_nil in Hin.
Qed.

(** X24. When no direct reference brings references of its own (every
    entry is external, a fuzzy match, or a node without references), the
    engine returns the empty result, on every graph and for every depth
    limit. *)
Theorem no_references_no_levels
    (self : analyzer) (direct_refs : list (string * details))
    (max_depth : Z) :
  (∀ ref d, (ref, d) ∈ direct_refs → d_references d = []) →
  find_indirect_references self direct_refs max_depth = Ok ∅.
Proof.
  intros Hnone. unfold find_indirect_references.
  assert (∀ items st,
            (∀ item, item ∈ items → d_references item.2 = []) →
            indirect_by_level (foldl seed_one st items) = indirect_by_level st
            ∧ queue (foldl seed_one st items) = queue st) as Hseed.
  { induction items as [|item items IH]; intros st Hitems; [done|].
    simpl. destruct (IH (seed_one st item)) as [-> ->].
    - intros i Hi. apply Hitems. by right.
    - unfold seed_one. by rewrite (Hitems item) by left. }
  destruct (Hseed direct_refs initial_state) as [Hlv Hq].
  { intros [ref d] Hin. by apply (Hnone ref d). }
  unfold seed. destruct (foldl seed_one initial_state direct_refs)
    as [lv vs q] eqn:E.
  simpl in *. subst lv q.
  by destruct (fuel_bound self _).
Qed.

Lemma no_references_no_levels_witness :
  find_indirect_references (load_graph Scenario.cycle)
    [("CIR/2024/15"%string, external);
     ("SEBI/HO"%string, fuzzy_match ["X.pdf"%string])] 5
  = Ok ∅.
Proof.
  apply (no_references_no_levels (load_graph Scenario.cycle)
           [("CIR/2024/15"%string, external);
            ("SEBI/HO"%string, fuzzy_match ["X.pdf"%string])] 5).
  intros ref d Hin.
  apply elem_of_cons in Hin as [[= -> ->]|Hin]; [reflexivity|].
  apply list_elem_of_singleton in Hin as [= -> ->]. reflexivity.
Defined.
